(** * CheXpert replication notebook: label derivation and study-level evaluation

    A shallow embedding of the data-processing cells of
    [replicating_chexpert.ipynb]: the label deriver [feature_string], the
    derivation of the [patient] and [study] columns from [Path], the grouped
    per-study maximum and [validation_eval].

    Numbers held in table cells are modelled as canonical rationals [Qc]
    (equal numbers are equal terms) with a separate [NaN] for a blank cell.
    Comparisons and maxima of floating-point numbers are exact, so nothing is
    lost there; the arithmetic of the AUC itself and of the averages is
    carried out in exact rationals, which the floating-point results of the
    notebook equal up to rounding. *)

From Stdlib Require Import Ascii String QArith Qcanon OrdersEx Lqa.
From stdpp Require Import base numbers list sorting strings gmap.

Set Warnings "-clear-no-such-hyp".

Local Open Scope string_scope.
Local Open Scope list_scope.
Local Open Scope nat_scope.

(** ** Exceptions and fallible results *)

Inductive exn : Set :=
  | KeyError
  | IndexError
  | ValueError
  | DegenerateLabelError
  | AttributeError
  | TypeError
  | IndexingError.

Inductive result (A : Type) : Type :=
  | Ok (a : A)
  | Err (e : exn).
Arguments Ok {A} a.
Arguments Err {A} e.

Definition rbind {A B} (m : result A) (k : A → result B) : result B :=
  match m with
  | Ok a => k a
  | Err e => Err e
  end.

Notation "'let*' x ':=' m 'in' k" := (rbind m (λ x, k))
  (at level 10, x name, m at level 100, k at level 200,
   format "'let*'  x  ':='  m  'in'  '/' k").

Definition is_ok {A} (m : result A) : bool :=
  match m with Ok _ => true | Err _ => false end.

(** ** Table cells and rows *)

(** A numeric cell: a number, or [NaN] for a blank field of the CSV. *)
Inductive cell : Set :=
  | NaN
  | Num (q : Qc).

Global Instance cell_eq_dec : EqDecision cell.
Proof. solve_decision. Defined.

(** One row of [full_train_df] / [full_valid_df] / [full_df].  [Path] is the
    CSV column, [train_valid], [patient] and [study] are the columns the
    notebook appends, and [findings] holds the numeric columns by name.  A
    field is [None] where pandas holds None/NaN or the frame has no such
    column. *)
Record row : Type := Row {
  Path : option string;
  train_valid : option bool;
  patient : option string;
  study : option string;
  findings : gmap string cell
}.

Abbreviation DataFrame := (list row).

(** [row[feature]]: a column that does not exist raises [KeyError]. *)
Definition getitem (r : row) (feature : string) : result cell :=
  match findings r !! feature with
  | Some c => Ok c
  | None => Err KeyError
  end.

(** Python's [c == z] for an integer literal [z]: NaN equals nothing. *)
Definition py_eq (c : cell) (z : Z) : bool :=
  match c with
  | NaN => false
  | Num q => bool_decide (q = Qc_of_Z z)
  end.

(** Python's [c in [z1, ..., zn]]. *)
Definition py_in (c : cell) (zs : list Z) : bool := existsb (py_eq c) zs.

(** ** The label deriver *)

Definition chexpert_targets : list string :=
  ["Atelectasis"; "Cardiomegaly"; "Consolidation"; "Edema"; "Pleural Effusion"].

Definition u_one_features : list string := ["Atelectasis"; "Edema"].
Definition u_zero_features : list string :=
  ["Cardiomegaly"; "Consolidation"; "Pleural Effusion"].

(** One [for feature in features: if test(row[feature]): append] loop,
    threading [feature_list]. *)
Fixpoint append_features (test : cell → bool) (features : list string)
    (r : row) (feature_list : list string) : result (list string) :=
  match features with
  | [] => Ok feature_list
  | feature :: rest =>
      let* c := getitem r feature in
      append_features test rest r
        (if test c then feature_list ++ [feature] else feature_list)
  end.

(** The value of [feature_list] when [feature_string] reaches its [return]. *)
Definition feature_list (r : row) : result (list string) :=
  let* l := append_features (λ c, py_in c [-1; 1]%Z) u_one_features r [] in
  append_features (λ c, py_eq c 1) u_zero_features r l.

Definition feature_string (r : row) : result string :=
  let* l := feature_list r in
  Ok (String.concat ";" l).

(** [Series.fillna('')] on a column of strings that may hold NaN. *)
Definition fillna (v : option string) : string := default "" v.

(** [full_df.apply(feature_string, axis = 1).fillna('')]: the new column. *)
Fixpoint feature_string_column (df : DataFrame) : result (list string) :=
  match df with
  | [] => Ok []
  | r :: rest =>
      let* s := feature_string r in
      let* ss := feature_string_column rest in
      Ok (fillna (Some s) :: ss)
  end.

(** The rows a label can be derived from: all five target columns exist. *)
Definition has_columns (cols : list string) (r : row) : Prop :=
  ∀ f, f ∈ cols → is_Some (findings r !! f).

Definition policy_features : list string := u_one_features ++ u_zero_features.

(** Whether the loop's test holds of the cell of column [f]. *)
Definition selects (test : cell → bool) (r : row) (f : string) : bool :=
  match findings r !! f with
  | Some c => test c
  | None => false
  end.

(** ** The study-level evaluator *)

(** *** Patient and study identifiers *)

(** Python's [s.split('/', maxsplit)] for a [maxsplit] that is not negative:
    at most [maxsplit] cuts, the rest of the string goes into the last part;
    an empty string gives one empty part. *)
Fixpoint split_maxsplit (maxsplit : nat) (s : string) {struct s} : list string :=
  match maxsplit with
  | 0 => [s]
  | S fewer =>
      match s with
      | EmptyString => [EmptyString]
      | String c s' =>
          if Ascii.eqb c "/"%char then EmptyString :: split_maxsplit fewer s'
          else match split_maxsplit maxsplit s' with
               | part :: parts => String c part :: parts
               | [] => [String c EmptyString]
               end
      end
  end.

(** [Series.str.split('/', n)] on one path.  pandas reads [n = 0] as no
    limit and cuts at every [/]; a string has fewer [/] than characters, so
    its length serves as the limit then. *)
Definition str_split (n : nat) (s : string) : list string :=
  split_maxsplit (match n with 0 => String.length s | S _ => n end) s.

(** [Series.str.split('/', n, True)]: one list of parts per row; a blank path
    gives a blank row. *)
Definition str_split_expand (n : nat) (paths : list (option string))
    : list (option (list string)) :=
  map (fmap (str_split n)) paths.

(** Number of columns of the expanded frame: the longest list of parts. *)
Definition expand_width (parts : list (option (list string))) : nat :=
  foldr (λ ps w, Nat.max (from_option length 0 ps) w) 0 parts.

(** [expanded[k]]: column [k] of the expanded frame, [None] in the rows that
    have fewer parts; [KeyError] when the frame has no column [k]. *)
Definition expand_column (k : nat) (parts : list (option (list string)))
    : result (list (option string)) :=
  if decide (k < expand_width parts)
  then Ok (map (λ ps, ps ≫= (λ l : list string, l !! k)) parts)
  else Err KeyError.

Definition set_patient (r : row) (v : option string) : row :=
  {| Path := Path r; train_valid := train_valid r; patient := v;
     study := study r; findings := findings r |}.

Definition set_study (r : row) (v : option string) : row :=
  {| Path := Path r; train_valid := train_valid r; patient := patient r;
     study := v; findings := findings r |}.

(** [Series.str]: the accessor refuses, with [AttributeError], a column that
    holds no string.  A column that [read_csv] found blank in every row is
    one (its dtype is float64); the column of a frame without rows is not
    (its dtype is object), and neither is a column that has a string in some
    row. *)
Definition str_accessor (col : list (option string))
    : result (list (option string)) :=
  if bool_decide (col ≠ [] ∧ Forall (λ v, v = None) col)
  then Err AttributeError
  else Ok col.

(** [df['patient'] = df.Path.str.split('/',3,True)[2]] followed by
    [df['study'] = df.Path.str.split('/',4,True)[3]]. *)
Definition add_patient_study (df : DataFrame) : result DataFrame :=
  let* paths := str_accessor (map Path df) in
  let* patients := expand_column 2 (str_split_expand 3 paths) in
  let df1 := zip_with set_patient df patients in
  let* paths1 := str_accessor (map Path df1) in
  let* studies := expand_column 3 (str_split_expand 4 paths1) in
  Ok (zip_with set_study df1 studies).

(** *** Grouping by (patient, study) and taking the maximum *)

Abbreviation key := (string * string)%type.

(** The group a row falls in; a row with a blank patient or study is in no
    group ([groupby] drops it). *)
Definition study_key (r : row) : option key :=
  p ← patient r; s ← study r; Some (p, s).

(** Keys are ordered as pandas sorts them: by patient, then by study, strings
    compared character by character. *)
Definition key_leb (k1 k2 : key) : bool :=
  match String_as_OT.compare k1.1 k2.1 with
  | Lt => true
  | Gt => false
  | Eq => match String_as_OT.compare k1.2 k2.2 with
          | Gt => false
          | _ => true
          end
  end.

Definition key_le (k1 k2 : key) : Prop := key_leb k1 k2.

Global Instance key_le_dec : RelDecision key_le.
Proof. intros k1 k2. unfold key_le. apply _. Defined.

(** The sorted distinct keys of the frame. *)
Definition group_keys (df : DataFrame) : list key :=
  merge_sort key_le (remove_dups (omap study_key df)).

Definition group_rows (df : DataFrame) (k : key) : list row :=
  filter (λ r, study_key r = Some k) df.

(** [max] of two cells, skipping NaN. *)
Definition cell_max (a b : cell) : cell :=
  match a, b with
  | NaN, _ => b
  | _, NaN => a
  | Num x, Num y => Num (if decide (x ≤ y)%Qc then y else x)
  end.

(** [max] of a column: NaN when every cell is NaN. *)
Definition column_max (cells : list cell) : cell := foldr cell_max NaN cells.

Definition column (c : string) (rows : list row) : list cell :=
  map (λ r, default NaN (findings r !! c)) rows.

Definition group_max (classes : list string) (df : DataFrame) (k : key)
    : list cell :=
  map (λ c, column_max (column c (group_rows df k))) classes.

(** Whether every row has every column of [classes]. *)
Definition has_classes (classes : list string) (df : DataFrame) : bool :=
  forallb (λ r, forallb (λ c, bool_decide (is_Some (findings r !! c))) classes) df.

(** [df.groupby(['patient','study'])[classes].max()]: one entry per study,
    sorted by key, holding the maxima of the class columns in the order of
    [classes]; [KeyError] when a class column does not exist. *)
Definition groupby_max (classes : list string) (df : DataFrame)
    : result (list (key * list cell)) :=
  if has_classes classes df
  then Ok (map (λ k, (k, group_max classes df k)) (group_keys df))
  else Err KeyError.

(** [.values]: the matrix of aggregates, without the index. *)
Definition values (grouped : list (key * list cell)) : list (list cell) :=
  map snd grouped.

(** [.reset_index()]: the index becomes the [patient] and [study] columns. *)
Definition reset_index (classes : list string) (grouped : list (key * list cell))
    : DataFrame :=
  map (λ g, {| Path := None; train_valid := None;
               patient := Some g.1.1; study := Some g.1.2;
               findings := list_to_map (zip classes g.2) |}) grouped.

(** *** Predicted scores *)

(** [m[:, i]]: column [i] of a matrix held row by row; [IndexError] when a
    row has no entry [i]. *)
Fixpoint matrix_column {A} (m : list (list A)) (i : nat) : result (list A) :=
  match m with
  | [] => Ok []
  | entries :: rest =>
      match entries !! i with
      | Some v => let* col := matrix_column rest i in Ok (v :: col)
      | None => Err IndexError
      end
  end.

Definition set_finding (c : string) (r : row) (v : Qc) : row :=
  {| Path := Path r; train_valid := train_valid r; patient := patient r;
     study := study r; findings := <[c := Num v]> (findings r) |}.

(** A row with a blank in every field. *)
Definition blank_row : row :=
  {| Path := None; train_valid := None; patient := None; study := None;
     findings := ∅ |}.

(** [DataFrame._ensure_valid_index(value)], which every column assignment
    goes through: a frame without rows takes the index of the value it is
    given, one row of blanks per entry.  A list of rows does not record the
    columns of a frame that has no row, so the new rows start without
    finding columns. *)
Definition ensure_valid_index (n : nat) (df : DataFrame) : DataFrame :=
  match df with
  | [] => replicate n blank_row
  | _ :: _ => df
  end.

(** [preds_df[c] = col]: the column must be as long as the frame, once a
    frame without rows has taken the index of the column. *)
Definition set_column (c : string) (col : list Qc) (df : DataFrame)
    : result DataFrame :=
  let df := ensure_valid_index (length col) df in
  if decide (length col = length df)
  then Ok (zip_with (set_finding c) df col)
  else Err ValueError.

(** [for i, c in enumerate(classes): preds_df[c] = preds[:,i]], from index
    [i] on. *)
Fixpoint assign_preds_from (i : nat) (classes : list string)
    (preds : list (list Qc)) (preds_df : DataFrame) : result DataFrame :=
  match classes with
  | [] => Ok preds_df
  | c :: rest =>
      let* col := matrix_column preds i in
      let* preds_df' := set_column c col preds_df in
      assign_preds_from (S i) rest preds preds_df'
  end.

Definition assign_preds (classes : list string) (preds : list (list Qc))
    (df : DataFrame) : result DataFrame :=
  assign_preds_from 0 classes preds df.

(** *** The ranking score *)

Definition Qc_of_nat (n : nat) : Qc := Qc_of_Z (Z.of_nat n).

(** A study is positive for a finding when its aggregated label is 1. *)
Definition is_positive (label : cell) : bool := py_eq label 1.

Definition score_lt (a b : cell) : bool :=
  match a, b with
  | Num x, Num y => bool_decide (x < y)%Qc
  | _, _ => false
  end.

Definition score_eq (a b : cell) : bool :=
  match a, b with
  | Num x, Num y => bool_decide (x = y)
  | _, _ => false
  end.

(** Rank of the score [s] among [scores], counted from 1 in increasing
    order; tied scores share the mean of the ranks they occupy. *)
Definition average_rank (scores : list cell) (s : cell) : Qc :=
  (Qc_of_nat (length (filter (λ t, score_lt t s) scores)) +
   (Qc_of_nat (length (filter (λ t, score_eq t s) scores)) + 1) / 2)%Qc.

(** Modelled from the spec: [sklearn.metrics.roc_auc_score], which the
    notebook imports and whose code is not in the repository.  Section 4.2
    gives it as the area under the ROC curve in its rank-based form, tied
    scores taking their average rank, and as failing with
    [DegenerateLabelError] when the ground-truth vector has no positive or no
    negative study. *)
Definition roc_auc_score (y_true y_score : list cell) : result Qc :=
  let pairs := zip y_true y_score in
  let scores := map snd pairs in
  let positives := filter (λ p, is_positive p.1) pairs in
  let n_pos := length positives in
  let n_neg := length pairs - n_pos in
  if decide (n_pos = 0 ∨ n_neg = 0) then Err DegenerateLabelError
  else
    let rank_sum :=
      foldr (λ p acc, average_rank scores p.2 + acc)%Qc 0%Qc positives in
    Ok ((rank_sum - Qc_of_nat n_pos * (Qc_of_nat n_pos + 1) / 2) /
        (Qc_of_nat n_pos * Qc_of_nat n_neg))%Qc.

(** *** The evaluation *)

(** The dictionary comprehension
    [{data.classes[i]: roc_auc_score(acts[:,i], preds[:,i]) for i in ...}],
    entry by entry. *)
Fixpoint auc_scores_from (classes : list string) (acts preds : list (list cell))
    (indices : list nat) (scores : gmap string Qc) : result (gmap string Qc) :=
  match indices with
  | [] => Ok scores
  | i :: rest =>
      match classes !! i with
      | None => Err IndexError
      | Some c =>
          let* y_true := matrix_column acts i in
          let* y_score := matrix_column preds i in
          let* auc := roc_auc_score y_true y_score in
          auc_scores_from classes acts preds rest (<[c := auc]> scores)
      end
  end.

Definition milli (n : Z) : Qc := Q2Qc (n # 1000).

(** Average results reported in the associated paper. *)
Definition chexpert_auc_scores : gmap string Qc :=
  list_to_map
    [("Atelectasis", milli 858); ("Cardiomegaly", milli 854);
     ("Consolidation", milli 939); ("Edema", milli 941);
     ("Pleural Effusion", milli 936)].

(** [sum(list(d.values()))/len(d.values())], in exact arithmetic. *)
Definition dict_average (d : gmap string Qc) : Qc :=
  (map_fold (λ _ v acc, v + acc) 0 d / Qc_of_nat (size d))%Qc.

(** What one printed line holds: the finding, its auc, the paper's auc and
    their difference. *)
Fixpoint report_lines (auc_scores : gmap string Qc) (targets : list string)
    : result (list (string * Qc * Qc * Qc)) :=
  match targets with
  | [] => Ok []
  | k :: rest =>
      match auc_scores !! k, chexpert_auc_scores !! k with
      | Some auc, Some paper =>
          let* lines := report_lines auc_scores rest in
          Ok ((k, auc, paper, paper - auc)%Qc :: lines)
      | _, _ => Err KeyError
      end
  end.

Record report : Type := Report {
  auc_scores : gmap string Qc;
  avg_auc : Qc;
  avg_chexpert_auc : Qc;
  lines : list (string * Qc * Qc * Qc)
}.

(** [validation_eval(learn)], with [classes] for [learn.data.classes] (the
    global [data] is the one [learn] was built from) and [valid_preds] for
    the matrix of scores [learn.get_preds(ds_type=DatasetType.Valid)[0]],
    one row per image.  The result collects what the function prints. *)
Definition validation_eval (classes : list string) (full_valid_df : DataFrame)
    (valid_preds : list (list Qc)) : result report :=
  let* grouped_acts := groupby_max classes full_valid_df in
  let acts := values grouped_acts in
  let* preds_df := assign_preds classes valid_preds full_valid_df in
  let* grouped_preds := groupby_max classes preds_df in
  let preds := values grouped_preds in
  let* auc_scores :=
    auc_scores_from classes acts preds (seq 0 (length chexpert_targets)) ∅ in
  let avg_chexpert_auc := dict_average chexpert_auc_scores in
  let avg_auc := dict_average auc_scores in
  let* lines := report_lines auc_scores chexpert_targets in
  Ok {| auc_scores := auc_scores; avg_auc := avg_auc;
        avg_chexpert_auc := avg_chexpert_auc; lines := lines |}.

(** [get_preds_per_study()]: the scores are written into [full_valid_df]
    itself, whose class columns hold predictions from then on. *)
Definition get_preds_per_study (classes : list string) (full_valid_df : DataFrame)
    (valid_preds : list (list Qc)) : result (DataFrame * DataFrame) :=
  let* full_valid_df' := assign_preds classes valid_preds full_valid_df in
  let* grouped := groupby_max classes full_valid_df' in
  Ok (reset_index classes grouped, full_valid_df').

(** *** The combined frame and the patient sample *)

Definition set_train_valid (b : bool) (r : row) : row :=
  {| Path := Path r; train_valid := Some b; patient := patient r;
     study := study r; findings := findings r |}.

(** [full_train_df['train_valid'] = False] and
    [full_valid_df['train_valid'] = True]. *)
Definition flag_frames (full_train_df full_valid_df : DataFrame)
    : DataFrame * DataFrame :=
  (map (set_train_valid false) full_train_df,
   map (set_train_valid true) full_valid_df).

(** [pd.concat([a, b])]: the rows of [a], then those of [b]. *)
Definition pd_concat {A} (a b : list A) : list A := a ++ b.

(** A frame with its index is a list of rows with their labels.  [read_csv]
    labels the rows 0, 1, 2, ...; adding a column, selecting rows and
    concatenating frames leave each row the label it has. *)
Definition range_index (df : DataFrame) : list (nat * row) :=
  zip (seq 0 (length df)) df.

(** [Series.unique()]: the distinct values in order of first appearance. *)
Fixpoint unique {A} `{EqDecision A} (l : list A) : list A :=
  match l with
  | [] => []
  | x :: rest => x :: filter (λ y, y ≠ x) (unique rest)
  end.

(** [check_bool_indexer(index, key)]: the boolean Series [key] as a mask for
    a frame whose index is [index].  A key that has that very index is taken
    as it is.  Any other key is reindexed to [index]: its labels have to be
    distinct ([ValueError] otherwise) and every label of the frame has to be
    one of them ([IndexingError] otherwise). *)
Definition check_bool_indexer (index : list nat) (key : list (nat * bool))
    : result (list bool) :=
  if decide (map fst key = index) then Ok (map snd key)
  else if decide (NoDup (map fst key)) then
    match mapM (λ l, (list_to_map key : gmap nat bool) !! l) index with
    | Some mask => Ok mask
    | None => Err IndexingError
    end
  else Err ValueError.

(** [get_sample_df(sample_perc)], reading the globals [full_df] and
    [full_train_df], both with their index.  [draws i] is the [i]-th number
    that [np.random.rand] yields after [np.random.seed(99)].  [~] raises
    [TypeError] on a flag column that holds a blank.  The first two masks
    have the index of [full_df] itself; the third one is computed on
    [full_train_df] and goes through [check_bool_indexer]. *)
Definition get_sample_df (draws : nat → Qc) (sample_perc : Qc)
    (full_df full_train_df : list (nat * row)) : result (list (nat * row)) :=
  if bool_decide (Forall (λ ir : nat * row, is_Some (train_valid ir.2)) full_df) then
    let train_only_df :=
      filter (λ ir : nat * row, train_valid ir.2 = Some false) full_df in
    let valid_only_df :=
      filter (λ ir : nat * row, train_valid ir.2 = Some true) full_df in
    let unique_patients :=
      unique (map (λ ir : nat * row, patient ir.2) train_only_df) in
    let mask :=
      map (λ i, bool_decide (draws i < sample_perc)%Qc)
        (seq 0 (length unique_patients)) in
    let sample_patients :=
      map fst (filter (λ pm : option string * bool, pm.2) (zip unique_patients mask)) in
    let selected :=
      map (λ ir : nat * row, (ir.1, bool_decide (patient ir.2 ∈ sample_patients)))
        full_train_df in
    let* keep := check_bool_indexer (map fst train_only_df) selected in
    let sample_df :=
      map fst (filter (λ rm : nat * row * bool, rm.2) (zip train_only_df keep)) in
    Ok (pd_concat sample_df valid_only_df)
  else Err TypeError.

(** *** Switching the callbacks off for the learning-rate finder *)

(** [lr_finder(learn)] (later [lr_find_no_cbs]) as far as
    [learn.callback_fns] goes: the list [lr_find] runs with, and the list
    left behind.  [lr_find] and [recorder.plot] do not assign
    [callback_fns]. *)
Definition lr_finder {A} `{EqDecision A} (cbfs callback_fns : list A)
    : list A * list A :=
  let without := filter (λ cbf, cbf ∉ cbfs) callback_fns in
  (without, without ++ cbfs).

(** ** Vocabulary of the statements *)

(** Number of [/] characters of a path. *)
Fixpoint separators (s : string) : nat :=
  match s with
  | EmptyString => 0
  | String c s' => if Ascii.eqb c "/"%char then S (separators s') else separators s'
  end.

(** What the two assignments store in a row. *)
Definition with_identifiers (r : row) : row :=
  set_study
    (set_patient r (Path r ≫= λ p, str_split 3 p !! 2))
    (Path r ≫= λ p, str_split 4 p !! 3).

(** [v] is the maximum of the cells [cells], NaN skipped: NaN when there is
    no number among them, else the largest number. *)
Definition is_max_of (cells : list cell) (v : cell) : Prop :=
  match v with
  | NaN => ∀ c, c ∈ cells → c = NaN
  | Num m => Num m ∈ cells ∧ ∀ x, Num x ∈ cells → (x ≤ m)%Qc
  end.

(** An aggregate does not decrease: NaN is below everything. *)
Definition cell_le (a b : cell) : Prop :=
  match a, b with
  | NaN, _ => True
  | Num _, NaN => False
  | Num x, Num y => (x ≤ y)%Qc
  end.

(** The row [reset_index] makes of the aggregate of study [k]. *)
Definition study_row (classes : list string) (df : DataFrame) (k : key) : row :=
  {| Path := None; train_valid := None;
     patient := Some k.1; study := Some k.2;
     findings := list_to_map (zip classes (group_max classes df k)) |}.

(** The aggregated vector of class [c]: one cell per study, in key order. *)
Definition study_column (c : string) (df : DataFrame) : list cell :=
  map (λ k, column_max (column c (group_rows df k))) (group_keys df).

(** A ground-truth vector on which the AUC is undefined: every study is
    positive, or every study is negative. *)
Definition constant_labels (y_true : list cell) : Prop :=
  (∀ v, v ∈ y_true → is_positive v) ∨ (∀ v, v ∈ y_true → ¬ is_positive v).

(** A row that carries both identifiers. *)
Definition identified (r : row) : Prop := is_Some (patient r) ∧ is_Some (study r).

Global Instance identified_dec r : Decision (identified r).
Proof. unfold identified. apply _. Defined.

(** The entries of [col] before the first [p]. *)
Fixpoint before_first {A} `{EqDecision A} (p : A) (col : list A) : list A :=
  match col with
  | [] => []
  | x :: rest => if decide (x = p) then [] else x :: before_first p rest
  end.

(** The number of distinct patients that the column [col] names before it
    names [p]. *)
Definition patients_before (p : option string) (col : list (option string)) : nat :=
  length (remove_dups (before_first p col)).

(** Whether the draws keep patient [p] of the patient column [col]: the
    draw that decides is the one at the number of distinct patients that
    come before [p]. *)
Definition drawn (draws : nat → Qc) (sample_perc : Qc)
    (col : list (option string)) (p : option string) : Prop :=
  (draws (patients_before p col) < sample_perc)%Qc.

Global Instance drawn_dec draws sample_perc col p :
  Decision (drawn draws sample_perc col p).
Proof. unfold drawn. apply _. Defined.

(** [v] is the maximum of column [c] over the rows of study [(p, s)] in
    [df], blanks skipped: NaN when none of those rows holds a number there,
    else the largest of the numbers they hold. *)
Definition is_study_max (df : DataFrame) (p s c : string) (v : cell) : Prop :=
  match v with
  | NaN =>
      ∀ r x, r ∈ df → patient r = Some p → study r = Some s →
        findings r !! c ≠ Some (Num x)
  | Num m =>
      (∃ r, r ∈ df ∧ patient r = Some p ∧ study r = Some s ∧
            findings r !! c = Some (Num m)) ∧
      ∀ r x, r ∈ df → patient r = Some p → study r = Some s →
        findings r !! c = Some (Num x) → (x ≤ m)%Qc
  end.

(** All sublists of a list. *)
Fixpoint sublists_of {A} (l : list A) : list (list A) :=
  match l with
  | [] => [[]]
  | x :: rest => map (cons x) (sublists_of rest) ++ sublists_of rest
  end.


(** A path of the CheXpert layout: [root/split/patient/study/file]. *)
Definition chexpert_path (root split p s file : string) : string :=
  (root +:+ "/" +:+ split +:+ "/" +:+ p +:+ "/" +:+ s +:+ "/" +:+ file)%string.

(** What the assignment loop makes of one row, given that row's scores,
    from class index [i] on. *)
Fixpoint write_scores (i : nat) (classes : list string) (scores : list Qc)
    (r : row) : row :=
  match classes with
  | [] => r
  | c :: rest =>
      match scores !! i with
      | Some v => write_scores (S i) rest scores (set_finding c r v)
      | None => r
      end
  end.

(** The frame after the assignment loop, from class index [i] on: every row
    with the scores of its score row written into it. *)
Definition with_scores (i : nat) (classes : list string) (preds : list (list Qc))
    (df : DataFrame) : DataFrame :=
  zip_with (λ r s, write_scores i classes s r)
    (ensure_valid_index (length preds) df) preds.

(** Results and reports can be compared. *)
Global Instance exn_eq_dec : EqDecision exn.
Proof. solve_decision. Defined.

Global Instance result_eq_dec {A} `{EqDecision A} : EqDecision (result A).
Proof. solve_decision. Defined.

Global Instance report_eq_dec : EqDecision report.
Proof. solve_decision. Defined.

(** ** Sample rows *)

Definition mk_row (p : string) (cells : list (string * cell)) : row :=
  {| Path := Some p; train_valid := Some false; patient := None; study := None;
     findings := list_to_map cells |}.

Definition row_uncertain : row :=
  mk_row "CheXpert-v1.0-small/train/patient00001/study1/view1_frontal.jpg"
    [("Atelectasis", Num (-1)); ("Cardiomegaly", Num 1); ("Consolidation", Num (-1));
     ("Edema", NaN); ("Pleural Effusion", Num 0); ("Pneumonia", Num 1)].

Definition row_empty : row :=
  mk_row "CheXpert-v1.0-small/train/patient00002/study1/view1_frontal.jpg"
    [("Atelectasis", Num 0); ("Cardiomegaly", Num (-1)); ("Consolidation", NaN);
     ("Edema", Num 0); ("Pleural Effusion", NaN)].

Definition row_unrecognized : row :=
  mk_row "CheXpert-v1.0-small/train/patient00003/study1/view1_frontal.jpg"
    [("Atelectasis", Num (1 + 1)); ("Cardiomegaly", Num (1 + 1)); ("Consolidation", Num 0);
     ("Edema", Num 0); ("Pleural Effusion", Num 0)].

Definition row_unrecognized_mixed : row :=
  mk_row "CheXpert-v1.0-small/train/patient00004/study1/view1_frontal.jpg"
    [("Atelectasis", Num (1 + 1)); ("Cardiomegaly", Num 1); ("Consolidation", Num 0);
     ("Edema", Num (-1)); ("Pleural Effusion", Num 0)].

Definition row_uncertain_other : row :=
  {| Path := None; train_valid := Some true;
     patient := Some "patient64541"; study := Some "study1";
     findings := list_to_map
       [("Atelectasis", Num (-1)); ("Cardiomegaly", Num 1); ("Consolidation", Num (-1));
        ("Edema", NaN); ("Pleural Effusion", Num 0); ("Fracture", NaN)] |}.

(** A validation table of four images in two studies, the same rows in
    reverse order, and scores for them. *)
Definition image (p s : string) (at_ ca co ed pe : cell) : row :=
  {| Path := None; train_valid := Some true; patient := Some p; study := Some s;
     findings := list_to_map
       [("Atelectasis", at_); ("Cardiomegaly", ca); ("Consolidation", co);
        ("Edema", ed); ("Pleural Effusion", pe)] |}.

Definition half : Qc := Q2Qc (1 # 2).
Definition fifth : Qc := Q2Qc (1 # 5).

Definition image_a1 : row :=
  image "patient64541" "study1" (Num 0) (Num 0) (Num 0) (Num 0) (Num 0).
Definition image_a2 : row :=
  image "patient64541" "study1" (Num 1) (Num 0) NaN (Num 1) (Num 0).
Definition image_b1 : row :=
  image "patient64542" "study1" (Num 0) (Num 1) (Num 1) (Num 0) (Num 1).
Definition image_b2 : row :=
  image "patient64542" "study1" (Num 0) (Num 0) (Num 0) NaN (Num 1).

Definition valid_df : DataFrame := [image_a1; image_a2; image_b1; image_b2].
Definition valid_df_shuffled : DataFrame := [image_b2; image_b1; image_a2; image_a1].

(** Every study of this table is negative for Consolidation. *)
Definition valid_df_degenerate : DataFrame :=
  [image_a1; image_a2;
   image "patient64542" "study1" (Num 0) (Num 1) (Num 0) (Num 0) (Num 1)].

Definition constant_preds : list (list Qc) :=
  [[half; fifth; half; fifth; half];
   [half; fifth; half; fifth; half];
   [half; fifth; half; fifth; half];
   [half; fifth; half; fifth; half]].

(** [valid_df] with [constant_preds] written into its class columns. *)
Definition valid_df_constant : DataFrame :=
  map (λ r, set_finding "Pleural Effusion"
              (set_finding "Edema"
                 (set_finding "Consolidation"
                    (set_finding "Cardiomegaly"
                       (set_finding "Atelectasis" r half) fifth) half) fifth) half)
    valid_df.

Definition some_preds : list (list Qc) :=
  [[fifth; fifth; half; fifth; half];
   [half; fifth; fifth; half; fifth];
   [fifth; half; half; fifth; half]].

Definition df_paths : DataFrame :=
  [mk_row "CheXpert-v1.0-small/train/patient00001/study1/view1_frontal.jpg" [];
   mk_row "view1_frontal.jpg" [];
   mk_row "CheXpert-v1.0-small/train//study2/view1_frontal.jpg" []].

(** Two paths of the CheXpert layout. *)
Definition df_layout : DataFrame :=
  [mk_row "CheXpert-v1.0-small/train/patient00001/study1/view1_frontal.jpg" [];
   mk_row "CheXpert-v1.0-small/valid/patient64541/study2/view2_lateral.jpg" []].

(** The aggregated ground truth of [valid_df], and the aggregated scores of
    [valid_df_constant]. *)
Definition valid_grouped : list (key * list cell) :=
  [(("patient64541", "study1"), [Num 1; Num 0; Num 0; Num 1; Num 0]);
   (("patient64542", "study1"), [Num 0; Num 1; Num 1; Num 0; Num 1])].

Definition constant_grouped : list (key * list cell) :=
  [(("patient64541", "study1"), [Num half; Num fifth; Num half; Num fifth; Num half]);
   (("patient64542", "study1"), [Num half; Num fifth; Num half; Num fifth; Num half])].

(** The report of [valid_df] with [constant_preds]. *)
Definition valid_report : report :=
  {| auc_scores := list_to_map
       [("Atelectasis", half); ("Cardiomegaly", half); ("Consolidation", half);
        ("Edema", half); ("Pleural Effusion", half)];
     avg_auc := half;
     avg_chexpert_auc := Q2Qc (4528 # 5000);
     lines :=
       [("Atelectasis", half, milli 858, Q2Qc (358 # 1000));
        ("Cardiomegaly", half, milli 854, Q2Qc (354 # 1000));
        ("Consolidation", half, milli 939, Q2Qc (439 # 1000));
        ("Edema", half, milli 941, Q2Qc (441 # 1000));
        ("Pleural Effusion", half, milli 936, Q2Qc (436 # 1000))] |}.

(** A training frame of three images of two patients, and draws that pick
    the first patient only. *)
Definition train_a1 : row :=
  set_train_valid false
    (image "patient00001" "study1" (Num 1) (Num 0) (Num 0) (Num (-1)) (Num 0)).
Definition train_b1 : row :=
  set_train_valid false
    (image "patient00002" "study1" (Num 0) (Num 0) NaN (Num 0) (Num 1)).
Definition train_a2 : row :=
  set_train_valid false
    (image "patient00001" "study2" (Num 0) (Num 1) (Num 0) (Num 0) (Num 0)).

Definition train_df : DataFrame := [train_a1; train_b1; train_a2].

Definition sample_draws (i : nat) : Qc :=
  match i with
  | 0 => fifth
  | _ => half
  end.

(** ** Tactics *)

(** Settles [has_columns] on a concrete row by looking each column up. *)
Ltac has_columns_compute :=
  let f := fresh "f" in
  let Hf := fresh "Hf" in
  intros f Hf;
  unfold policy_features, u_one_features, u_zero_features in Hf;
  simpl in Hf; set_unfold; destruct_or!; subst f; vm_compute; eauto.

(** Order facts about canonical rationals, settled on the underlying
    fractions. *)
Ltac qc_order :=
  try done;
  try (apply Qcle_antisym);
  unfold Qcle, Qclt in *; lra.

(** Settles membership in a list that evaluates to explicit cells. *)
Ltac cell_in_computed :=
  vm_compute; apply list_elem_of_In; simpl; auto.

(** Settles that every cell of a list that evaluates to explicit cells is the
    one expected. *)
Ltac cells_all_computed :=
  let v := fresh "v" in
  let Hv := fresh "Hv" in
  intros v Hv; vm_compute in Hv; apply list_elem_of_In in Hv; simpl in Hv;
  repeat (destruct Hv as [<-|Hv]; [reflexivity|]); destruct Hv.

(** * Verification *)

(** ** Facts about the label deriver *)

Example feature_string_row_uncertain :
  feature_string row_uncertain = Ok "Atelectasis;Cardiomegaly".
Proof. vm_compute. reflexivity. Qed.

Example feature_string_row_empty : feature_string row_empty = Ok "".
Proof. reflexivity. Qed.

Example str_split_path :
  str_split 3 "CheXpert-v1.0-small/train/patient00001/study1/view1_frontal.jpg" =
  ["CheXpert-v1.0-small"; "train"; "patient00001"; "study1/view1_frontal.jpg"].
Proof. reflexivity. Qed.

Example str_split_empty_parts : str_split 4 "/a//" = [""; "a"; ""; ""].
Proof. reflexivity. Qed.

Example str_split_no_limit : str_split 0 "a/b/c" = ["a"; "b"; "c"].
Proof. reflexivity. Qed.

Example groupby_max_valid_df :
  groupby_max ["Atelectasis"; "Edema"] valid_df =
  Ok [(("patient64541", "study1"), [Num 1; Num 1]);
      (("patient64542", "study1"), [Num 0; Num 0])].
Proof. vm_compute. reflexivity. Qed.

Example roc_auc_score_textbook :
  roc_auc_score [Num 0; Num 0; Num 1; Num 1]
    [Num (Q2Qc (1 # 10)); Num (Q2Qc (4 # 10)); Num (Q2Qc (35 # 100)); Num (Q2Qc (8 # 10))]
  = Ok (Q2Qc (3 # 4)).
Proof. vm_compute. reflexivity. Qed.

Example roc_auc_score_ties :
  roc_auc_score [Num 0; Num 1; Num 1; Num 0] [Num half; Num half; Num 1; Num 0]
  = Ok (Q2Qc (7 # 8)).
Proof. vm_compute. reflexivity. Qed.

Section label_deriver.

Lemma append_features_spec test features r acc :
  has_columns features r →
  append_features test features r acc =
    Ok (acc ++ filter (λ f, selects test r f) features).
Proof.
  revert acc. induction features as [|f fs IH]; intros acc Hc; simpl.
  - by rewrite app_nil_r.
  - assert (Hf : is_Some (findings r !! f)) by (apply Hc; left).
    destruct Hf as [c Hf]. unfold getitem. rewrite Hf. simpl.
    rewrite IH by (intros g Hg; apply Hc; by right).
    assert (Hs : selects test r f = test c) by (unfold selects; by rewrite Hf).
    rewrite filter_cons, Hs.
    destruct (test c); simpl; by rewrite <- ?app_assoc.
Qed.

End label_deriver.

(** ** The derived label set *)

Section derived_set.

Lemma py_eq_spec c z : py_eq c z = true ↔ c = Num (Qc_of_Z z).
Proof.
  destruct c as [|q]; simpl; [split; [done | discriminate] |].
  rewrite bool_decide_eq_true. split; [by intros -> | by intros [= ->]].
Qed.

Lemma py_in_uncertain_or_positive c :
  py_in c [-1; 1]%Z = true ↔ c = Num (-1) ∨ c = Num 1.
Proof.
  unfold py_in. simpl. rewrite orb_false_r, orb_true_iff, !py_eq_spec.
  assert (Qc_of_Z (-1) = (-1)%Qc) as -> by (by apply Qc_is_canon).
  assert (Qc_of_Z 1 = 1%Qc) as -> by (by apply Qc_is_canon).
  done.
Qed.

Lemma py_eq_positive c : py_eq c 1 = true ↔ c = Num 1.
Proof.
  rewrite py_eq_spec.
  assert (Qc_of_Z 1 = 1%Qc) as -> by (by apply Qc_is_canon). done.
Qed.

Lemma has_columns_app cols1 cols2 r :
  has_columns (cols1 ++ cols2) r ↔ has_columns cols1 r ∧ has_columns cols2 r.
Proof.
  unfold has_columns. split.
  - intros H; split; intros f Hf; apply H, elem_of_app; auto.
  - intros [H1 H2] f [Hf|Hf]%elem_of_app; auto.
Qed.

(** On a row that has the five target columns the two loops run to the end,
    each keeping the features its test selects, in rule-list order. *)
Lemma feature_list_filter r :
  has_columns policy_features r →
  feature_list r =
    Ok (filter (λ f, selects (λ c, py_in c [-1; 1]%Z) r f) u_one_features ++
        filter (λ f, selects (λ c, py_eq c 1) r f) u_zero_features).
Proof.
  intros [H1 H0]%has_columns_app. unfold feature_list.
  rewrite (append_features_spec _ u_one_features r []) by done. cbn [rbind].
  by rewrite append_features_spec by done.
Qed.

Lemma append_features_ext test features r1 r2 acc :
  (∀ f, f ∈ features → findings r1 !! f = findings r2 !! f) →
  append_features test features r1 acc = append_features test features r2 acc.
Proof.
  revert acc. induction features as [|f fs IH]; intros acc Hag; [done|].
  simpl. unfold getitem. rewrite (Hag f) by left.
  destruct (findings r2 !! f) as [c|]; simpl; [|done].
  apply IH. intros g Hg. apply Hag. by right.
Qed.

Lemma selects_Some test r f :
  selects test r f ↔ ∃ c, findings r !! f = Some c ∧ test c = true.
Proof.
  unfold selects. destruct (findings r !! f) as [c|]; simpl.
  - rewrite Is_true_true. naive_solver.
  - naive_solver.
Qed.

(** Membership in the list the two loops build, on a row that has the five
    target columns. *)
Lemma feature_list_elem_of (r : row) :
  has_columns policy_features r →
  ∃ l, feature_list r = Ok l ∧
    ∀ f, f ∈ l ↔
       (f ∈ u_one_features ∧
          (findings r !! f = Some (Num (-1)) ∨ findings r !! f = Some (Num 1))) ∨
       (f ∈ u_zero_features ∧ findings r !! f = Some (Num 1)).
Proof.
  intros Hc. eexists. split; [by apply feature_list_filter|].
  intros f. rewrite elem_of_app, !list_elem_of_filter, !selects_Some.
  setoid_rewrite py_in_uncertain_or_positive. setoid_rewrite py_eq_positive.
  naive_solver.
Qed.

(** C1: on every observation row, a finding is in the list built by
    [feature_string] exactly when it is governed by uncertain-as-positive
    (Atelectasis, Edema) and its raw value is -1 or 1, or it is governed by
    uncertain-as-negative (Cardiomegaly, Consolidation, Pleural Effusion) and
    its raw value is exactly 1; a missing (NaN) raw value never puts a finding
    in the list. *)
Theorem feature_list_membership (r : row) :
  has_columns policy_features r →
  ∃ l, feature_list r = Ok l ∧
    (∀ f, f ∈ l ↔
       (f ∈ u_one_features ∧
          (findings r !! f = Some (Num (-1)) ∨ findings r !! f = Some (Num 1))) ∨
       (f ∈ u_zero_features ∧ findings r !! f = Some (Num 1))) ∧
    (∀ f, findings r !! f = Some NaN → f ∉ l).
Proof.
  intros Hc. destruct (feature_list_elem_of r Hc) as (l & Hl & Hmem).
  exists l. split; [done|]. split; [done|].
  intros f Hnan [[_ [Hv|Hv]]|[_ Hv]]%Hmem; congruence.
Qed.

Lemma feature_list_membership_witness :
  ∃ l, feature_list row_uncertain = Ok l ∧
    (∀ f, f ∈ l ↔
       (f ∈ u_one_features ∧
          (findings row_uncertain !! f = Some (Num (-1)) ∨
           findings row_uncertain !! f = Some (Num 1))) ∨
       (f ∈ u_zero_features ∧ findings row_uncertain !! f = Some (Num 1))) ∧
    (∀ f, findings row_uncertain !! f = Some NaN → f ∉ l).
Proof.
  apply (feature_list_membership row_uncertain). has_columns_compute.
Defined.

(** C3: the label string is the list of selected finding names joined with
    [;]; the list follows the rule-list order and repeats no name; an empty
    list gives the empty string, which is what the [feature_string] column
    then holds. *)
Theorem feature_string_serialization (r : row) :
  has_columns policy_features r →
  ∃ l, feature_list r = Ok l ∧
    feature_string r = Ok (String.concat ";" l) ∧
    sublist l policy_features ∧
    NoDup l ∧
    (l = [] → feature_string r = Ok "" ∧ feature_string_column [r] = Ok [""]).
Proof.
  intros Hc. pose proof (feature_list_filter r Hc) as Hl.
  eexists. split; [exact Hl|].
  assert (Hsub : sublist
    (filter (λ f, selects (λ c, py_in c [-1; 1]%Z) r f) u_one_features ++
     filter (λ f, selects (λ c, py_eq c 1) r f) u_zero_features) policy_features).
  { apply sublist_app; apply sublist_filter. }
  assert (Hs : feature_string r = Ok (String.concat ";"
    (filter (λ f, selects (λ c, py_in c [-1; 1]%Z) r f) u_one_features ++
     filter (λ f, selects (λ c, py_eq c 1) r f) u_zero_features)))
    by (unfold feature_string; by rewrite Hl).
  split; [exact Hs|]. split; [exact Hsub|]. split.
  - eapply sublist_NoDup; [|exact Hsub]. vm_compute.
    repeat (constructor; [set_solver|]). constructor.
  - intros Hnil. rewrite Hnil in Hs. split; [exact Hs|].
    cbn [feature_string_column]. by rewrite Hs.
Qed.

Lemma feature_string_serialization_witness :
  ∃ l, feature_list row_empty = Ok l ∧
    feature_string row_empty = Ok (String.concat ";" l) ∧
    sublist l policy_features ∧
    NoDup l ∧
    (l = [] →
     feature_string row_empty = Ok "" ∧ feature_string_column [row_empty] = Ok [""]).
Proof.
  apply (feature_string_serialization row_empty). has_columns_compute.
Defined.

Lemma selects_unrecognized (test : cell → bool) r f q g :
  findings r !! f = Some (Num q) → test (Num q) = false → test (Num 0) = false →
  selects test (set_finding f r 0) g = selects test r g.
Proof.
  intros Hf Hq H0. unfold selects. simpl. destruct (decide (f = g)) as [<-|Hne].
  - by rewrite lookup_insert_eq, Hf, Hq, H0.
  - by rewrite lookup_insert_ne.
Qed.

(** C7 (as the code has it): a value outside -1, 0, 1 and blank raises
    nothing.  [feature_string] returns the names that the policy selects,
    joined with [;] in rule-list order; the finding that holds the value is
    not among them, and the label string is the one the row gets with 0 in
    the place of that value. *)
Theorem feature_string_unrecognized_excluded (r : row) (f : string) (q : Qc) :
  has_columns policy_features r →
  f ∈ policy_features →
  findings r !! f = Some (Num q) →
  q ≠ (-1)%Qc → q ≠ 0%Qc → q ≠ 1%Qc →
  ∃ l, feature_list r = Ok l ∧
    feature_string r = Ok (String.concat ";" l) ∧
    (f ∉ l) ∧
    sublist l policy_features ∧
    (∀ g, g ∈ l ↔
       (g ∈ u_one_features ∧
          (findings r !! g = Some (Num (-1)) ∨ findings r !! g = Some (Num 1))) ∨
       (g ∈ u_zero_features ∧ findings r !! g = Some (Num 1))) ∧
    feature_string (set_finding f r 0) = Ok (String.concat ";" l).
Proof.
  intros Hc Hf Hv Hm1 H0 H1.
  destruct (feature_list_elem_of r Hc) as (l & Hl & Hmem).
  exists l. split; [done|]. split; [unfold feature_string; by rewrite Hl|].
  split; [intros [[_ [Hx|Hx]]|[_ Hx]]%Hmem; congruence|].
  pose proof (feature_list_filter r Hc) as Hfilter. rewrite Hl in Hfilter.
  injection Hfilter as ->.
  split; [apply sublist_app; apply sublist_filter|]. split; [exact Hmem|].
  assert (Hc' : has_columns policy_features (set_finding f r 0)).
  { intros g Hg. simpl. destruct (decide (f = g)) as [->|Hne].
    - rewrite lookup_insert_eq. by eexists.
    - rewrite lookup_insert_ne by done. by apply Hc. }
  assert (Hin : py_in (Num q) [-1; 1]%Z = false).
  { destruct (py_in (Num q) [-1; 1]%Z) eqn:Hq; [|done].
    apply py_in_uncertain_or_positive in Hq as [[= ->]|[= ->]]; done. }
  assert (Heq : py_eq (Num q) 1 = false).
  { destruct (py_eq (Num q) 1) eqn:Hq; [|done].
    apply py_eq_positive in Hq as [= ->]. done. }
  unfold feature_string. rewrite (feature_list_filter _ Hc'). cbn [rbind].
  do 3 f_equal.
  - apply list_filter_iff. intros g.
    by rewrite (selects_unrecognized _ r f q g Hv Hin).
  - apply list_filter_iff. intros g.
    by rewrite (selects_unrecognized _ r f q g Hv Heq).
Qed.

Lemma feature_string_unrecognized_excluded_witness :
  feature_string row_unrecognized_mixed = Ok "Edema;Cardiomegaly" ∧
  feature_string (set_finding "Atelectasis" row_unrecognized_mixed 0) =
    Ok "Edema;Cardiomegaly".
Proof.
  destruct (feature_string_unrecognized_excluded row_unrecognized_mixed
              "Atelectasis" (1 + 1)%Qc) as (l & Hl & Hs & _ & _ & _ & Hz).
  - has_columns_compute.
  - vm_compute. set_solver.
  - reflexivity.
  - discriminate.
  - discriminate.
  - discriminate.
  - vm_compute in Hl. injection Hl as <-. split; [exact Hs|exact Hz].
Defined.

(** C7 as stated fails: Atelectasis and Cardiomegaly hold 2, and the label
    deriver returns the empty label string instead of raising. *)
Lemma feature_string_unrecognized_counterexample :
  findings row_unrecognized !! "Atelectasis" = Some (Num (1 + 1)) ∧
  findings row_unrecognized !! "Cardiomegaly" = Some (Num (1 + 1)) ∧
  feature_string row_unrecognized = Ok "".
Proof. repeat split. Qed.

(** C9: two rows that agree on the five policy-governed columns get the same
    label string, whatever their path, patient, study, split flag and other
    columns are. *)
Theorem feature_string_noninterference (r1 r2 : row) :
  (∀ f, f ∈ policy_features → findings r1 !! f = findings r2 !! f) →
  feature_string r1 = feature_string r2.
Proof.
  intros Hag. unfold feature_string, feature_list.
  rewrite (append_features_ext _ u_one_features r1 r2 [])
    by (intros f Hf; apply Hag, elem_of_app; by left).
  destruct (append_features _ u_one_features r2 []) as [l|e]; cbn [rbind]; [|done].
  rewrite (append_features_ext _ u_zero_features r1 r2 l)
    by (intros f Hf; apply Hag, elem_of_app; by right).
  done.
Qed.

End derived_set.

Lemma feature_string_noninterference_witness :
  feature_string row_uncertain = feature_string row_uncertain_other.
Proof.
  apply (feature_string_noninterference row_uncertain row_uncertain_other).
  has_columns_compute.
Defined.

(** ** Patient and study identifiers *)

Section identifiers.

Lemma split_maxsplit_length n s :
  length (split_maxsplit n s) = S (Nat.min n (separators s)).
Proof.
  revert n. induction s as [|c s IH]; intros [|n]; try done.
  cbn [split_maxsplit separators]. destruct (Ascii.eqb c "/"%char).
  - simpl. by rewrite IH.
  - specialize (IH (S n)).
    destruct (split_maxsplit (S n) s) as [|part parts]; simpl in *; lia.
Qed.


(** With a limit that is not 0 the split is Python's. *)
Lemma str_split_length n s :
  length (str_split (S n) s) = S (Nat.min (S n) (separators s)).
Proof. apply split_maxsplit_length. Qed.


Lemma expand_width_cons ps parts :
  expand_width (ps :: parts) = Nat.max (from_option length 0 ps) (expand_width parts).
Proof. done. Qed.

Lemma expand_width_lt k parts :
  k < expand_width parts ↔ ∃ ps, Some ps ∈ parts ∧ k < length ps.
Proof.
  induction parts as [|[ps|] parts IH].
  - split; [simpl; lia|]. intros (ps & Hin & _). by apply elem_of_nil in Hin.
  - rewrite expand_width_cons, Nat.max_lt_iff, IH. cbn [from_option]. split.
    + intros [Hk|(qs & Hin & Hk)]; [exists ps|exists qs]; split; try done; set_solver.
    + intros (qs & Hin & Hk). apply elem_of_cons in Hin as [[= ->]|Hin]; [by left|].
      right. by exists qs.
  - rewrite expand_width_cons, Nat.max_lt_iff, IH. cbn [from_option]. split.
    + intros [Hk|(qs & Hin & Hk)]; [lia|]. exists qs. split; [set_solver|done].
    + intros (qs & Hin & Hk). apply elem_of_cons in Hin as [[=]|Hin].
      right. by exists qs.
Qed.

Lemma expand_width_split_lt k n (paths : list (option string)) :
  k < expand_width (str_split_expand n paths) ↔
  ∃ p, Some p ∈ paths ∧ k < length (str_split n p).
Proof.
  rewrite expand_width_lt. unfold str_split_expand. split.
  - intros (ps & Hin & Hk). apply list_elem_of_fmap in Hin as ([p|] & Heq & Hin); [|done].
    injection Heq as ->. by exists p.
  - intros (p & Hin & Hk). exists (str_split n p). split; [|done].
    apply list_elem_of_fmap. by exists (Some p).
Qed.

Lemma zip_with_map_l {A B C} (g : A → B → C) (h : A → B) (l : list A) :
  zip_with g l (map h l) = map (λ x, g x (h x)) l.
Proof. induction l as [|x l IH]; simpl; [done|]. by rewrite IH. Qed.

Lemma zip_with_map_map {A B C D} (g : B → C → D) (f : A → B) (h : A → C) (l : list A) :
  zip_with g (map f l) (map h l) = map (λ x, g (f x) (h x)) l.
Proof. induction l as [|x l IH]; simpl; [done|]. by rewrite IH. Qed.

Lemma str_accessor_cases (col : list (option string)) :
  (col ≠ [] ∧ Forall (λ v, v = None) col ∧ str_accessor col = Err AttributeError) ∨
  ((col = [] ∨ ∃ p, Some p ∈ col) ∧ str_accessor col = Ok col).
Proof.
  unfold str_accessor.
  destruct (decide (col ≠ [] ∧ Forall (λ v, v = None) col)) as [[Hne Hall]|Hno].
  - left. rewrite bool_decide_eq_true_2; done.
  - right. rewrite bool_decide_eq_false_2 by done. split; [|done].
    destruct col as [|v col]; [by left|]. right.
    destruct (decide (Forall (λ v, v = None) (v :: col))) as [Hall|Hex]; [by destruct Hno|].
    apply not_Forall_Exists in Hex; [|apply _].
    apply Exists_exists in Hex as ([p|] & Hin & Hp); [by exists p|by destruct Hp].
Qed.

Lemma add_patient_study_cases (df : DataFrame) :
  (∃ p, Some p ∈ map Path df ∧ 3 < length (str_split 4 p)) ∧
    add_patient_study df = Ok (map with_identifiers df)
  ∨ (df ≠ [] ∧ Forall (λ r, Path r = None) df) ∧
    add_patient_study df = Err AttributeError
  ∨ ((¬ ∃ p, Some p ∈ map Path df ∧ 3 < length (str_split 4 p)) ∧
     (df = [] ∨ ∃ r, r ∈ df ∧ is_Some (Path r))) ∧
    add_patient_study df = Err KeyError.
Proof.
  unfold add_patient_study.
  destruct (str_accessor_cases (map Path df)) as [(Hne & Hall & ->)|[Hsome Hacc]].
  { right. left. split; [|done]. split.
    - intros ->. done.
    - rewrite Forall_forall in Hall. apply Forall_forall. intros r Hr. apply Hall.
      change (map ?g ?l) with (g <$> l). apply list_elem_of_fmap. by exists r. }
  assert (Hrows : df = [] ∨ ∃ r, r ∈ df ∧ is_Some (Path r)).
  { destruct Hsome as [Hnil|[p Hp]].
    - left. by destruct df.
    - right. change (map ?g ?l) with (g <$> l) in Hp.
      apply list_elem_of_fmap in Hp as (r & Hr & Hin). exists r. by rewrite <- Hr. }
  rewrite Hacc. cbn [rbind]. unfold expand_column.
  destruct (decide (2 < expand_width (str_split_expand 3 (map Path df)))) as [H3|H3];
    cbn [rbind].
  - set (df1 := zip_with set_patient df _).
    assert (Hdf1 : df1 = map (λ r, set_patient r (Path r ≫= λ p, str_split 3 p !! 2)) df).
    { unfold df1, str_split_expand. rewrite !map_map.
      rewrite zip_with_map_l. apply map_ext. by intros [[p|] ? ? ? ?]. }
    assert (Hpaths : map Path df1 = map Path df).
    { rewrite Hdf1, map_map. by apply map_ext. }
    rewrite Hpaths, Hacc. cbn [rbind].
    destruct (decide (3 < expand_width (str_split_expand 4 (map Path df)))) as [H4|H4];
      cbn [rbind].
    + left. split; [by apply expand_width_split_lt|]. f_equal.
      rewrite Hdf1. unfold str_split_expand. rewrite !map_map.
      rewrite zip_with_map_map. apply map_ext. by intros [[p|] ? ? ? ?].
    + right. right. split; [|done]. split; [|done].
      by rewrite <- expand_width_split_lt.
  - right. right. split; [|done]. split; [|done].
    intros (p & Hin & Hlen). apply H3.
    apply expand_width_split_lt. exists p. split; [done|].
    rewrite str_split_length in *. lia.
Qed.





End identifiers.

(** ** The order of the group keys *)

Section key_order.

Local Abbreviation slt := String_as_OT.lt.

Lemma slt_irrefl s : ¬ slt s s.
Proof. apply (irreflexivity slt). Qed.

Lemma slt_trans s t u : slt s t → slt t u → slt s u.
Proof. apply (transitivity (R := slt)). Qed.

Lemma slt_trichotomy s t : slt s t ∨ s = t ∨ slt t s.
Proof. destruct (String_as_OT.compare_spec s t); auto. Qed.

Lemma key_le_spec (k1 k2 : key) :
  key_le k1 k2 ↔
  slt k1.1 k2.1 ∨ (k1.1 = k2.1 ∧ (slt k1.2 k2.2 ∨ k1.2 = k2.2)).
Proof.
  destruct k1 as [p1 s1], k2 as [p2 s2]. unfold key_le, key_leb. cbn [fst snd].
  destruct (String_as_OT.compare_spec p1 p2) as [H1|H1|H1].
  - destruct (String_as_OT.compare_spec s1 s2) as [H2|H2|H2]; simpl.
    + naive_solver.
    + naive_solver.
    + split; [done|]. intros [Hlt|[_ [Hlt|Heq]]].
      * rewrite H1 in Hlt. by apply slt_irrefl in Hlt.
      * by apply (slt_irrefl s1), (slt_trans _ s2).
      * rewrite Heq in H2. by apply slt_irrefl in H2.
  - simpl. naive_solver.
  - simpl. split; [done|]. intros [Hlt|[Heq _]].
    + by apply (slt_irrefl p1), (slt_trans _ p2).
    + rewrite Heq in H1. by apply slt_irrefl in H1.
Qed.

Global Instance key_le_total : Total key_le.
Proof.
  intros k1 k2. rewrite !key_le_spec.
  destruct (slt_trichotomy k1.1 k2.1) as [?|[?|?]],
    (slt_trichotomy k1.2 k2.2) as [?|[?|?]]; naive_solver.
Qed.

Global Instance key_le_trans : Transitive key_le.
Proof.
  intros k1 k2 k3. rewrite !key_le_spec.
  intros [H1|[E1 H1]] [H2|[E2 H2]].
  - left. by apply (slt_trans _ k2.1).
  - left. by rewrite <- E2.
  - left. by rewrite E1.
  - right. split; [congruence|].
    destruct H1 as [H1|H1], H2 as [H2|H2].
    + left. by apply (slt_trans _ k2.2).
    + left. by rewrite <- H2.
    + left. by rewrite H1.
    + right. congruence.
Qed.

Global Instance key_le_antisymm : AntiSymm (=) key_le.
Proof.
  intros [p1 s1] [p2 s2]. rewrite !key_le_spec. simpl.
  intros [H1|[E1 H1]] [H2|[E2 H2]].
  - by destruct (slt_irrefl p1); apply (slt_trans _ p2).
  - subst. by apply slt_irrefl in H1.
  - subst. by apply slt_irrefl in H2.
  - subst. destruct H1 as [H1|H1], H2 as [H2|H2]; subst; try done.
    by destruct (slt_irrefl s1); apply (slt_trans _ s2).
Qed.

End key_order.

(** ** The grouped maximum *)

Section grouped_max.

Global Instance cell_max_comm : Comm (=) cell_max.
Proof.
  intros [|x] [|y]; simpl; try done. f_equal.
  repeat case_decide; qc_order.
Qed.

Global Instance cell_max_assoc : Assoc (=) cell_max.
Proof.
  intros [|x] [|y] [|z]; simpl; try done. f_equal.
  repeat case_decide; qc_order.
Qed.

Lemma column_max_Permutation cs cs' : cs ≡ₚ cs' → column_max cs = column_max cs'.
Proof.
  intros Hp. unfold column_max.
  apply (foldr_permutation_proper (=) cell_max NaN); [|done].
  intros a1 a2 b. by rewrite !(assoc cell_max), (comm cell_max a1).
Qed.

Lemma cell_max_NaN_r c : cell_max c NaN = c.
Proof. by destruct c. Qed.

Lemma column_max_app cs cs' :
  column_max (cs ++ cs') = cell_max (column_max cs) (column_max cs').
Proof.
  unfold column_max. induction cs as [|c cs IH]; simpl; [done|].
  by rewrite IH, (assoc cell_max).
Qed.

Lemma column_max_singleton c : column_max [c] = c.
Proof. apply cell_max_NaN_r. Qed.

Lemma cell_le_refl c : cell_le c c.
Proof. destruct c; simpl; [done|]. apply Qcle_refl. Qed.

Lemma cell_le_max_l a b : cell_le a (cell_max a b).
Proof.
  destruct a as [|x], b as [|y]; simpl; try done; try apply Qcle_refl.
  case_decide; [done|apply Qcle_refl].
Qed.

Lemma column_max_is_max cs : is_max_of cs (column_max cs).
Proof.
  induction cs as [|c cs IH].
  - simpl. intros c Hc. by apply elem_of_nil in Hc.
  - change (column_max (c :: cs)) with (cell_max c (column_max cs)).
    destruct c as [|x], (column_max cs) as [|m]; simpl in *.
    + intros c [->|Hc]%elem_of_cons; auto.
    + destruct IH as [Hin Hle]. split; [by right|].
      intros x [[=]|Hx]%elem_of_cons. auto.
    + split; [by left|]. intros y [[= ->]|Hy]%elem_of_cons; [apply Qcle_refl|].
      by specialize (IH _ Hy).
    + destruct IH as [Hin Hle]. case_decide as Hxm.
      * split; [by right|]. intros y [[= ->]|Hy]%elem_of_cons; auto.
      * apply Qcnot_le_lt, Qclt_le_weak in Hxm. split; [by left|].
        intros y [[= ->]|Hy]%elem_of_cons; [apply Qcle_refl|].
        trans m; auto.
Qed.

End grouped_max.

(** ** Groups *)

Section groups.

Lemma group_keys_sorted df : Sorted key_le (group_keys df).
Proof. apply (Sorted_merge_sort key_le). Qed.

Lemma group_keys_NoDup df : NoDup (group_keys df).
Proof.
  unfold group_keys. rewrite merge_sort_Permutation. apply NoDup_remove_dups.
Qed.

Lemma elem_of_group_keys df k :
  k ∈ group_keys df ↔ ∃ r, r ∈ df ∧ study_key r = Some k.
Proof.
  unfold group_keys.
  by rewrite merge_sort_Permutation, elem_of_remove_dups, list_elem_of_omap.
Qed.

(** The sorted distinct keys are determined by the set of keys. *)
Lemma group_keys_unique df (ks : list key) :
  Sorted key_le ks → NoDup ks →
  (∀ k, k ∈ ks ↔ ∃ r, r ∈ df ∧ study_key r = Some k) →
  group_keys df = ks.
Proof.
  intros Hs Hn Hk. apply (Sorted_unique key_le); [apply group_keys_sorted|done|].
  apply NoDup_Permutation; [apply group_keys_NoDup|done|].
  intros k. by rewrite elem_of_group_keys, Hk.
Qed.

Lemma group_keys_Permutation df df' : df ≡ₚ df' → group_keys df = group_keys df'.
Proof.
  intros Hp. apply group_keys_unique;
    [apply group_keys_sorted|apply group_keys_NoDup|].
  intros k. rewrite elem_of_group_keys. by setoid_rewrite Hp.
Qed.

Lemma group_max_Permutation classes df df' k :
  df ≡ₚ df' → group_max classes df k = group_max classes df' k.
Proof.
  intros Hp. unfold group_max. apply map_ext. intros c.
  apply column_max_Permutation. unfold column, group_rows.
  change (map ?f ?l) with (f <$> l). by rewrite Hp.
Qed.

Lemma has_classes_Forall classes df :
  has_classes classes df ↔ Forall (has_columns classes) df.
Proof.
  unfold has_classes. rewrite forallb_True. apply Forall_proper; [|done].
  intros r. rewrite forallb_True, Forall_forall. unfold has_columns.
  by setoid_rewrite bool_decide_spec.
Qed.

Lemma has_classes_Permutation classes df df' :
  df ≡ₚ df' → has_classes classes df = has_classes classes df'.
Proof.
  intros Hp. apply eq_bool_prop_intro. rewrite !has_classes_Forall. by rewrite Hp.
Qed.

Lemma groupby_max_Permutation classes df df' :
  df ≡ₚ df' → groupby_max classes df = groupby_max classes df'.
Proof.
  intros Hp. unfold groupby_max.
  rewrite (has_classes_Permutation classes df df' Hp).
  rewrite (group_keys_Permutation df df' Hp).
  destruct (has_classes classes df'); [|done]. f_equal.
  apply map_ext. intros k. by rewrite (group_max_Permutation classes df df' k Hp).
Qed.

Lemma groupby_max_Ok classes df g :
  groupby_max classes df = Ok g ↔
  has_classes classes df ∧ g = map (λ k, (k, group_max classes df k)) (group_keys df).
Proof.
  unfold groupby_max. destruct (has_classes classes df); simpl.
  - split; [by intros [= <-]|by intros [_ ->]].
  - split; [done|by intros [[] _]].
Qed.

Lemma elem_of_groupby_max classes df g k vals :
  groupby_max classes df = Ok g →
  (k, vals) ∈ g ↔ k ∈ group_keys df ∧ vals = group_max classes df k.
Proof.
  intros [_ ->]%groupby_max_Ok. change (map ?f ?l) with (f <$> l).
  rewrite list_elem_of_fmap. split.
  - by intros (k' & [= -> ->] & Hin).
  - intros [Hin ->]. by exists k.
Qed.

End groups.

(** ** Writing the predicted scores into the frame *)

Section predictions.

Lemma ensure_valid_index_length n (df : DataFrame) :
  length df = n → ensure_valid_index n df = df.
Proof. intros <-. by destruct df. Qed.

Lemma matrix_column_Ok {A} (d : A) (m : list (list A)) (i : nat) :
  Forall (λ s, i < length s) m →
  matrix_column m i = Ok (map (λ s, default d (s !! i)) m).
Proof.
  induction 1 as [|s m Hs _ IH]; [done|]. cbn [matrix_column map].
  destruct (lookup_lt_is_Some_2 s i Hs) as [v Hv]. by rewrite Hv, IH.
Qed.

Lemma matrix_column_short {A} (m : list (list A)) (i : nat) :
  Exists (λ s, length s ≤ i) m → matrix_column m i = Err IndexError.
Proof.
  induction 1 as [s m Hs|s m _ IH]; cbn [matrix_column].
  - by rewrite (lookup_ge_None_2 s i Hs).
  - destruct (s !! i); [|done]. by rewrite IH.
Qed.

Lemma zip_with_set_finding (W : list Qc → row → row) c (d : list Qc → Qc)
    (df : DataFrame) (preds : list (list Qc)) :
  zip_with (λ r s, W s r) (zip_with (set_finding c) df (map d preds)) preds =
  zip_with (λ r s, W s (set_finding c r (d s))) df preds.
Proof.
  revert preds. induction df as [|r df IH]; intros [|s preds]; try done.
  cbn [map zip_with]. by rewrite IH.
Qed.

Lemma zip_with_keep_l {A B} (l : list A) (k : list B) :
  length k = length l → zip_with (λ x _, x) l k = l.
Proof.
  revert k. induction l as [|x l IH]; intros [|y k] Hlen; try done.
  cbn [zip_with]. rewrite IH; [done|]. simpl in Hlen. lia.
Qed.

Lemma not_Exists_short (i : nat) (preds : list (list Qc)) :
  ¬ Exists (λ s, length s ≤ i) preds → Forall (λ s, i < length s) preds.
Proof.
  intros Hno. apply Forall_forall. intros s Hs.
  destruct (decide (i < length s)) as [|Hge]; [done|].
  destruct Hno. apply Exists_exists. exists s. split; [done|lia].
Qed.

Lemma write_scores_fields i classes s r :
  Path (write_scores i classes s r) = Path r ∧
  train_valid (write_scores i classes s r) = train_valid r ∧
  patient (write_scores i classes s r) = patient r ∧
  study (write_scores i classes s r) = study r.
Proof.
  revert i r. induction classes as [|c classes IH]; intros i r; [done|].
  cbn [write_scores]. destruct (s !! i) as [v|]; [|done].
  destruct (IH (S i) (set_finding c r v)) as (-> & -> & -> & ->). done.
Qed.

Lemma write_scores_other i classes s r f :
  f ∉ classes → findings (write_scores i classes s r) !! f = findings r !! f.
Proof.
  revert i r. induction classes as [|c classes IH]; intros i r Hf; [done|].
  apply not_elem_of_cons in Hf as [Hne Hf].
  cbn [write_scores]. destruct (s !! i) as [v|]; [|done].
  rewrite IH by done. simpl. by rewrite lookup_insert_ne.
Qed.

Lemma write_scores_has_columns i classes s r :
  i + length classes ≤ length s → has_columns classes (write_scores i classes s r).
Proof.
  revert i r. induction classes as [|c classes IH]; intros i r Hlen f Hf.
  - by apply elem_of_nil in Hf.
  - cbn [length] in Hlen. destruct (lookup_lt_is_Some_2 s i) as [v Hv]; [lia|].
    cbn [write_scores]. rewrite Hv.
    destruct (decide (f ∈ classes)) as [Hin|Hout].
    + apply IH; [lia|done].
    + apply elem_of_cons in Hf as [->|Hf]; [|done].
      rewrite write_scores_other by done. simpl. rewrite lookup_insert_eq. by eexists.
Qed.

Lemma zip_with_write_scores_cons i c classes (df : DataFrame)
    (preds : list (list Qc)) :
  Forall (λ s, i < length s) preds →
  zip_with (λ r s, write_scores (S i) classes s r)
    (zip_with (set_finding c) df (map (λ s, default 0%Qc (s !! i)) preds)) preds =
  zip_with (λ r s, write_scores i (c :: classes) s r) df preds.
Proof.
  intros Hlong. rewrite (zip_with_set_finding (write_scores (S i) classes)).
  revert df. induction Hlong as [|s preds Hs _ IHp]; intros [|r df]; try done.
  cbn [zip_with]. rewrite IHp. f_equal. cbn [write_scores].
  destruct (lookup_lt_is_Some_2 s i Hs) as [v Hv]. by rewrite Hv.
Qed.

(** The four ways the assignment loop can end. *)
Lemma assign_preds_from_cases (i : nat) (classes : list string)
    (preds : list (list Qc)) (df : DataFrame) :
  (classes = [] ∧ assign_preds_from i classes preds df = Ok df) ∨
  (classes ≠ [] ∧ (df = [] ∨ length preds = length df) ∧
   Forall (λ s, i + length classes ≤ length s) preds ∧
   assign_preds_from i classes preds df = Ok (with_scores i classes preds df)) ∨
  (classes ≠ [] ∧ Forall (λ s, i < length s) preds ∧
   df ≠ [] ∧ length preds ≠ length df ∧
   assign_preds_from i classes preds df = Err ValueError) ∨
  (classes ≠ [] ∧ Exists (λ s, length s < i + length classes) preds ∧
   (df = [] ∨ length preds = length df ∨ Exists (λ s, length s ≤ i) preds) ∧
   assign_preds_from i classes preds df = Err IndexError).
Proof.
  revert i df. induction classes as [|c classes IH]; intros i df; [by left|].
  right. cbn [assign_preds_from].
  destruct (decide (Exists (λ s, length s ≤ i) preds)) as [Hshort|Hlong].
  { right. right. split; [done|]. rewrite (matrix_column_short preds i Hshort).
    split; [|split; [by right; right|done]].
    eapply Exists_impl; [exact Hshort|]. simpl. intros s Hs. lia. }
  apply not_Exists_short in Hlong.
  rewrite (matrix_column_Ok 0%Qc preds i Hlong). cbn [rbind].
  unfold set_column. cbv zeta. rewrite length_map.
  destruct (decide (length preds = length (ensure_valid_index (length preds) df)))
    as [Hlen|Hlen]; cbn [rbind].
  2:{ right. left. destruct df as [|r df].
      - destruct Hlen. simpl. by rewrite length_replicate.
      - done. }
  assert (Hor : df = [] ∨ length preds = length df).
  { destruct df as [|r df]; [by left|by right]. }
  set (df0 := ensure_valid_index (length preds) df) in *.
  set (df1 := zip_with (set_finding c) df0 (map (λ s, default 0%Qc (s !! i)) preds)).
  assert (Hlen1 : length df1 = length preds).
  { unfold df1. rewrite length_zip_with, length_map. lia. }
  assert (Hrows : with_scores (S i) classes preds df1 =
                  with_scores i (c :: classes) preds df).
  { unfold with_scores. rewrite (ensure_valid_index_length _ df1 Hlen1).
    fold df0. unfold df1. by apply zip_with_write_scores_cons. }
  destruct (IH (S i) df1) as [[-> Hok]|[(Hne & _ & Hall & Hok)|
    [(Hne & _ & _ & Hbad & _)|(Hne & Hex & _ & Herr)]]].
  - left. split; [done|]. split; [done|]. split.
    + eapply Forall_impl; [exact Hlong|]. simpl. intros s Hs. lia.
    + rewrite Hok. f_equal. rewrite <- Hrows. unfold with_scores.
      rewrite (ensure_valid_index_length _ df1 Hlen1). cbn [write_scores].
      symmetry. apply zip_with_keep_l. lia.
  - left. split; [done|]. split; [done|]. split.
    + eapply Forall_impl; [exact Hall|]. simpl. intros s Hs. lia.
    + by rewrite Hok, Hrows.
  - by destruct Hbad.
  - right. right. split; [done|]. split.
    + eapply Exists_impl; [exact Hex|]. simpl. intros s Hs. lia.
    + split; [|done]. destruct Hor as [->|Hl]; [by left|right; by left].
Qed.

Lemma assign_preds_Ok_cases classes preds df pdf :
  assign_preds classes preds df = Ok pdf →
  (classes = [] ∧ pdf = df) ∨
  (classes ≠ [] ∧ (df = [] ∨ length preds = length df) ∧
   Forall (λ s, length classes ≤ length s) preds ∧
   pdf = with_scores 0 classes preds df).
Proof.
  unfold assign_preds.
  destruct (assign_preds_from_cases 0 classes preds df)
    as [[-> Hok]|[(Hne & Hor & Hall & Hok)|[(_ & _ & _ & _ & Herr)|(_ & _ & _ & Herr)]]].
  - rewrite Hok. intros [= <-]. by left.
  - rewrite Hok. intros [= <-]. right. split; [done|]. split; [done|].
    split; [exact Hall|done].
  - by rewrite Herr.
  - by rewrite Herr.
Qed.

Lemma with_scores_length i classes preds df :
  df = [] ∨ length preds = length df →
  length (with_scores i classes preds df) = length preds.
Proof.
  intros Hor. unfold with_scores. rewrite length_zip_with.
  destruct Hor as [->|Hlen].
  - simpl. rewrite length_replicate. lia.
  - rewrite ensure_valid_index_length by done. lia.
Qed.

Lemma omap_study_key_zip_with (W : list Qc → row → row) (df : DataFrame)
    (preds : list (list Qc)) :
  (∀ s r, study_key (W s r) = study_key r) →
  length preds = length df →
  omap study_key (zip_with (λ r s, W s r) df preds) = omap study_key df.
Proof.
  intros HW. revert preds. induction df as [|r df IH]; intros [|s preds] Hlen; try done.
  cbn [zip_with]. csimpl. rewrite HW, IH; [done|]. simpl in Hlen. lia.
Qed.

Lemma omap_study_key_blank n : omap study_key (replicate n blank_row) = [].
Proof. induction n as [|n IH]; [done|]. csimpl. exact IH. Qed.

Lemma with_scores_study_keys i classes preds df :
  df = [] ∨ length preds = length df →
  omap study_key (with_scores i classes preds df) = omap study_key df.
Proof.
  intros Hor. unfold with_scores.
  rewrite (omap_study_key_zip_with (write_scores i classes)).
  - destruct Hor as [->|Hlen]; [apply omap_study_key_blank|].
    by rewrite ensure_valid_index_length.
  - intros s r. unfold study_key.
    destruct (write_scores_fields i classes s r) as (_ & _ & -> & ->). done.
  - destruct Hor as [->|Hlen]; [simpl; by rewrite length_replicate|].
    by rewrite ensure_valid_index_length.
Qed.

Lemma with_scores_has_classes i classes preds df :
  Forall (λ s, i + length classes ≤ length s) preds →
  has_classes classes (with_scores i classes preds df).
Proof.
  intros Hall. apply has_classes_Forall. unfold with_scores.
  generalize (ensure_valid_index (length preds) df). intros df0. revert df0.
  induction Hall as [|s preds Hs _ IH]; intros [|r df0]; cbn [zip_with];
    try constructor.
  - by apply write_scores_has_columns.
  - apply IH.
Qed.

(** The assignment leaves the studies of the frame as they are. *)
Lemma assign_preds_group_keys classes preds df pdf :
  assign_preds classes preds df = Ok pdf → group_keys pdf = group_keys df.
Proof.
  intros [[_ ->]|(_ & Hor & _ & ->)]%assign_preds_Ok_cases; [done|].
  unfold group_keys. by rewrite with_scores_study_keys.
Qed.

(** After the assignment every row has every class column. *)
Lemma assign_preds_has_classes classes preds df pdf :
  assign_preds classes preds df = Ok pdf → has_classes classes pdf.
Proof.
  intros [[-> ->]|(_ & _ & Hall & ->)]%assign_preds_Ok_cases.
  - apply has_classes_Forall, Forall_forall. intros r _ f Hf.
    by apply elem_of_nil in Hf.
  - by apply with_scores_has_classes.
Qed.

End predictions.

(** ** Study-level aggregation *)

Section aggregation.

Lemma groupby_max_keys classes df g :
  groupby_max classes df = Ok g → map fst g = group_keys df.
Proof.
  intros [_ ->]%groupby_max_Ok. rewrite map_map. simpl. apply map_id.
Qed.

Lemma group_max_lookup classes df k j c :
  classes !! j = Some c →
  group_max classes df k !! j = Some (column_max (column c (group_rows df k))).
Proof.
  intros Hc. unfold group_max. change (map ?f ?l) with (f <$> l).
  by rewrite list_lookup_fmap, Hc.
Qed.

Lemma study_key_Some r p s :
  study_key r = Some (p, s) ↔ patient r = Some p ∧ study r = Some s.
Proof.
  unfold study_key. destruct (patient r) as [p'|], (study r) as [s'|]; simpl;
    naive_solver.
Qed.

Lemma elem_of_column_group_rows df p s c x :
  Num x ∈ column c (group_rows df (p, s)) ↔
  ∃ r, r ∈ df ∧ patient r = Some p ∧ study r = Some s ∧
       findings r !! c = Some (Num x).
Proof.
  unfold column, group_rows. change (map ?f ?l) with (f <$> l).
  rewrite list_elem_of_fmap. setoid_rewrite list_elem_of_filter.
  setoid_rewrite study_key_Some. split.
  - intros (r & Hx & [Hp Hs] & Hin). exists r. repeat split; [done..|].
    destruct (findings r !! c) as [[|y]|]; simpl in Hx; congruence.
  - intros (r & Hin & Hp & Hs & Hx). exists r. by rewrite Hx.
Qed.

Lemma column_max_is_study_max df p s c :
  is_study_max df p s c (column_max (column c (group_rows df (p, s)))).
Proof.
  pose proof (column_max_is_max (column c (group_rows df (p, s)))) as Hmax.
  destruct (column_max (column c (group_rows df (p, s)))) as [|m]; simpl in *.
  - intros r x Hr Hp Hs Hx.
    assert (Hin : Num x ∈ column c (group_rows df (p, s)))
      by (apply elem_of_column_group_rows; by exists r).
    by specialize (Hmax _ Hin).
  - destruct Hmax as [Hin Hub]. split; [by apply elem_of_column_group_rows|].
    intros r x Hr Hp Hs Hx. apply Hub, elem_of_column_group_rows. by exists r.
Qed.

(** What a successful aggregation holds, in terms of the rows of the table. *)
Lemma groupby_max_entries classes df g :
  groupby_max classes df = Ok g →
  NoDup (map fst g) ∧
  (∀ p s, (p, s) ∈ map fst g ↔
     ∃ r, r ∈ df ∧ patient r = Some p ∧ study r = Some s) ∧
  (∀ p s vals, ((p, s), vals) ∈ g →
     length vals = length classes ∧
     ∀ j c, classes !! j = Some c →
       ∃ v, vals !! j = Some v ∧ is_study_max df p s c v).
Proof.
  intros Hg. rewrite (groupby_max_keys _ _ _ Hg). split; [|split].
  - apply group_keys_NoDup.
  - intros p s. rewrite elem_of_group_keys. by setoid_rewrite study_key_Some.
  - intros p s vals [Hk ->]%(elem_of_groupby_max _ _ _ _ _ Hg). split.
    + unfold group_max. by rewrite length_map.
    + intros j c Hc. eexists. split; [by apply group_max_lookup|].
      apply column_max_is_study_max.
Qed.

(** C2: on a table that has the class columns the aggregation succeeds.  It
    has one entry per (patient, study) pair that some row of the table
    carries; the entry of a pair holds, for each class column, the maximum
    of that column over the rows that carry the pair; the result is the same
    for any permutation of the rows; and the table of predicted scores goes
    through the same aggregation, which gives the same studies in the same
    order with the maxima of the scores. *)
Theorem groupby_max_by_membership (classes : list string) (df : DataFrame) :
  Forall (has_columns classes) df →
  ∃ g, groupby_max classes df = Ok g ∧
    NoDup (map fst g) ∧
    (∀ p s, (p, s) ∈ map fst g ↔
       ∃ r, r ∈ df ∧ patient r = Some p ∧ study r = Some s) ∧
    (∀ p s vals, ((p, s), vals) ∈ g →
       length vals = length classes ∧
       ∀ j c, classes !! j = Some c →
         ∃ v, vals !! j = Some v ∧ is_study_max df p s c v) ∧
    (∀ df', df ≡ₚ df' → groupby_max classes df' = Ok g) ∧
    (∀ preds pdf, assign_preds classes preds df = Ok pdf →
       ∃ gp, groupby_max classes pdf = Ok gp ∧
         map fst gp = map fst g ∧
         ∀ p s vals, ((p, s), vals) ∈ gp →
           length vals = length classes ∧
           ∀ j c, classes !! j = Some c →
             ∃ v, vals !! j = Some v ∧ is_study_max pdf p s c v).
Proof.
  intros Hcols.
  assert (Hg : groupby_max classes df =
    Ok (map (λ k, (k, group_max classes df k)) (group_keys df))).
  { apply groupby_max_Ok. split; [by apply has_classes_Forall|done]. }
  eexists. split; [exact Hg|].
  destruct (groupby_max_entries _ _ _ Hg) as (Hnd & Hkeys & Hvals).
  split; [done|]. split; [done|]. split; [done|]. split.
  - intros df' Hp. by rewrite <- (groupby_max_Permutation classes df df' Hp).
  - intros preds pdf Hpdf.
    assert (Hgp : groupby_max classes pdf =
      Ok (map (λ k, (k, group_max classes pdf k)) (group_keys pdf))).
    { apply groupby_max_Ok. split; [by eapply assign_preds_has_classes|done]. }
    eexists. split; [exact Hgp|]. split.
    + rewrite (groupby_max_keys _ _ _ Hgp), (groupby_max_keys _ _ _ Hg).
      by eapply assign_preds_group_keys.
    + apply (groupby_max_entries _ _ _ Hgp).
Qed.

Lemma groupby_max_by_membership_witness :
  groupby_max chexpert_targets valid_df = Ok valid_grouped ∧
  groupby_max chexpert_targets valid_df_shuffled = Ok valid_grouped ∧
  ∃ gp, groupby_max chexpert_targets valid_df_constant = Ok gp ∧
    map fst gp = map fst valid_grouped.
Proof.
  destruct (groupby_max_by_membership chexpert_targets valid_df)
    as (g & Hg & _ & _ & _ & Hperm & Hpreds).
  { apply has_classes_Forall. vm_compute. exact I. }
  assert (Hv : groupby_max chexpert_targets valid_df = Ok valid_grouped)
    by (vm_compute; reflexivity).
  rewrite Hv in Hg. injection Hg as <-. split; [exact Hv|]. split.
  - apply Hperm. change valid_df_shuffled with (rev valid_df). apply Permutation_rev.
  - destruct (Hpreds constant_preds valid_df_constant) as (gp & Hgp & Hk & _).
    { vm_compute. reflexivity. }
    by exists gp.
Defined.

End aggregation.

(** ** Aggregating twice *)

Section idempotence.

Lemma zip_map_r {A B} (f : A → B) (l : list A) :
  zip l (map f l) = map (λ x, (x, f x)) l.
Proof. induction l as [|x l IH]; simpl; [done|]. by rewrite IH. Qed.

Lemma list_to_map_tabulate (f : string → cell) (cs : list string) (c : string) :
  c ∈ cs →
  (list_to_map (zip cs (map f cs)) : gmap string cell) !! c = Some (f c).
Proof.
  intros Hc. rewrite zip_map_r. apply elem_of_list_to_map_1'.
  - intros y. change (map ?g ?l) with (g <$> l). rewrite list_elem_of_fmap.
    by intros (c' & [= <- ->] & _).
  - change (map ?g ?l) with (g <$> l). apply list_elem_of_fmap. by exists c.
Qed.

Lemma filter_none {A} (P : A → Prop) `{∀ x, Decision (P x)} (l : list A) :
  (∀ x, x ∈ l → ¬ P x) → filter P l = [].
Proof.
  induction l as [|x l IH]; intros Hl; [done|].
  rewrite filter_cons_False by (apply Hl; by left).
  apply IH. intros y Hy. apply Hl. by right.
Qed.

Lemma reset_index_groupby_max classes df g :
  groupby_max classes df = Ok g →
  reset_index classes g = map (study_row classes df) (group_keys df).
Proof.
  intros [_ ->]%groupby_max_Ok. unfold reset_index. by rewrite map_map.
Qed.

Lemma study_key_study_row classes df k : study_key (study_row classes df k) = Some k.
Proof. by destruct k. Qed.

Lemma group_rows_study_rows classes df (ks : list key) k :
  NoDup ks → k ∈ ks →
  group_rows (map (study_row classes df) ks) k = [study_row classes df k].
Proof.
  unfold group_rows. induction ks as [|k' ks IH]; intros Hn Hk.
  - by apply elem_of_nil in Hk.
  - apply NoDup_cons in Hn as [Hk' Hn]. cbn [map]. rewrite filter_cons.
    rewrite study_key_study_row. apply elem_of_cons in Hk as [->|Hk].
    + rewrite decide_True by done. f_equal.
      apply filter_none. change (map ?g ?l) with (g <$> l).
      intros r (k & -> & Hin)%list_elem_of_fmap. rewrite study_key_study_row.
      intros [= ->]. done.
    + rewrite decide_False by (intros [= ->]; done). by apply IH.
Qed.

Lemma group_max_study_row classes df k :
  group_max classes [study_row classes df k] k = group_max classes df k.
Proof.
  unfold group_max at 1. unfold group_rows. rewrite filter_cons, filter_nil.
  rewrite study_key_study_row, decide_True by done.
  unfold group_max. apply map_ext_in. intros c Hc%list_elem_of_In.
  cbn [column map]. rewrite column_max_singleton.
  unfold study_row, group_max. cbn [findings].
  by rewrite (list_to_map_tabulate _ classes c Hc).
Qed.

(** C8: aggregating the one-row-per-study table that an aggregation produced
    gives that same table again. *)
Theorem groupby_max_idempotent (classes : list string) (df : DataFrame)
    (g : list (key * list cell)) :
  groupby_max classes df = Ok g →
  groupby_max classes (reset_index classes g) = Ok g.
Proof.
  intros Hg. rewrite (reset_index_groupby_max _ _ _ Hg).
  pose proof Hg as [_ ->]%groupby_max_Ok.
  assert (Hkeys : group_keys (map (study_row classes df) (group_keys df)) = group_keys df).
  { apply group_keys_unique; [apply group_keys_sorted|apply group_keys_NoDup|].
    intros k. split.
    - intros Hk. exists (study_row classes df k). split; [|apply study_key_study_row].
      change (map ?g ?l) with (g <$> l). apply list_elem_of_fmap. by exists k.
    - change (map ?g ?l) with (g <$> l).
      intros (r & (k' & -> & Hin)%list_elem_of_fmap & Hr).
      rewrite study_key_study_row in Hr. by injection Hr as <-. }
  apply groupby_max_Ok. split.
  - apply has_classes_Forall, Forall_forall.
    change (map ?g ?l) with (g <$> l).
    intros r (k & -> & Hin)%list_elem_of_fmap c Hc. unfold study_row, group_max.
    cbn [findings]. rewrite (list_to_map_tabulate _ classes c Hc). by eexists.
  - rewrite Hkeys. apply map_ext_in. intros k Hk%list_elem_of_In. f_equal.
    unfold group_max at 2.
    rewrite (group_rows_study_rows classes df _ k (group_keys_NoDup df) Hk).
    symmetry. pose proof (group_max_study_row classes df k) as Hrow.
    unfold group_max at 1 in Hrow. unfold group_rows in Hrow.
    rewrite filter_cons, filter_nil, study_key_study_row, decide_True in Hrow by done.
    exact Hrow.
Qed.

Lemma groupby_max_idempotent_witness :
  groupby_max chexpert_targets
    (reset_index chexpert_targets
       [(("patient64541", "study1"), [Num 1; Num 0; Num 0; Num 1; Num 0]);
        (("patient64542", "study1"), [Num 0; Num 1; Num 1; Num 0; Num 1])]) =
  Ok [(("patient64541", "study1"), [Num 1; Num 0; Num 0; Num 1; Num 0]);
      (("patient64542", "study1"), [Num 0; Num 1; Num 1; Num 0; Num 1])].
Proof.
  apply (groupby_max_idempotent chexpert_targets valid_df). vm_compute. reflexivity.
Defined.

End idempotence.

(** ** Adding an image to a study *)

Section monotonicity.

Lemma group_rows_app df df' k :
  group_rows (df ++ df') k = group_rows df k ++ group_rows df' k.
Proof. apply filter_app. Qed.

Lemma group_rows_singleton r k :
  group_rows [r] k = if decide (study_key r = Some k) then [r] else [].
Proof. unfold group_rows. by rewrite filter_cons, filter_nil. Qed.

Lemma group_max_append_other classes df r k k' :
  study_key r = Some k → k' ≠ k →
  group_max classes (df ++ [r]) k' = group_max classes df k'.
Proof.
  intros Hr Hne. unfold group_max. apply map_ext. intros c.
  rewrite group_rows_app, group_rows_singleton, Hr.
  rewrite decide_False by (intros [= ->]; done). by rewrite app_nil_r.
Qed.

Lemma group_max_append_same classes df r k :
  study_key r = Some k →
  Forall2 cell_le (group_max classes df k) (group_max classes (df ++ [r]) k).
Proof.
  intros Hr. unfold group_max. induction classes as [|c classes IH]; [constructor|].
  cbn [map]. constructor; [|exact IH].
  rewrite group_rows_app, group_rows_singleton, Hr, decide_True by done.
  unfold column. rewrite map_app, column_max_app. apply cell_le_max_l.
Qed.

Lemma group_keys_append df r k k' :
  study_key r = Some k →
  k' ∈ group_keys (df ++ [r]) ↔ k' ∈ group_keys df ∨ k' = k.
Proof.
  intros Hr. rewrite !elem_of_group_keys. split.
  - intros (r' & [Hin|Hin]%elem_of_app & Hk).
    + left. by exists r'.
    + apply list_elem_of_singleton in Hin as ->. right. congruence.
  - intros [(r' & Hin & Hk)| ->].
    + exists r'. split; [|done]. apply elem_of_app. by left.
    + exists r. split; [|done]. apply elem_of_app. right. by left.
Qed.

(** C10: appending one row to a study leaves the aggregates of all other
    studies as they were, and no aggregate of that study decreases. *)
Theorem groupby_max_append_monotone (classes : list string) (df : DataFrame)
    (r : row) (k : key) (g : list (key * list cell)) :
  groupby_max classes df = Ok g →
  has_columns classes r →
  study_key r = Some k →
  ∃ g', groupby_max classes (df ++ [r]) = Ok g' ∧
    (∀ k' vals, k' ≠ k → (k', vals) ∈ g' ↔ (k', vals) ∈ g) ∧
    (∀ vals, (k, vals) ∈ g →
       ∃ vals', (k, vals') ∈ g' ∧ Forall2 cell_le vals vals').
Proof.
  intros Hg Hcols Hr. pose proof Hg as [Hdf _]%groupby_max_Ok.
  assert (Hg' : groupby_max classes (df ++ [r]) =
    Ok (map (λ k, (k, group_max classes (df ++ [r]) k)) (group_keys (df ++ [r])))).
  { apply groupby_max_Ok. split; [|done].
    apply has_classes_Forall, Forall_app. split; [by apply has_classes_Forall|].
    by constructor. }
  eexists. split; [exact Hg'|]. split.
  - intros k' vals Hne.
    rewrite (elem_of_groupby_max _ _ _ _ _ Hg'), (elem_of_groupby_max _ _ _ _ _ Hg).
    rewrite (group_keys_append df r k k' Hr).
    rewrite (group_max_append_other classes df r k k' Hr Hne). naive_solver.
  - intros vals [Hk ->]%(elem_of_groupby_max _ _ _ _ _ Hg).
    exists (group_max classes (df ++ [r]) k). split.
    + apply (elem_of_groupby_max _ _ _ _ _ Hg'). split; [|done].
      apply (group_keys_append df r k k Hr). by right.
    + by apply group_max_append_same.
Qed.

Lemma groupby_max_append_monotone_witness :
  ∃ g', groupby_max chexpert_targets ([image_a1; image_b1; image_b2] ++ [image_a2]) = Ok g' ∧
    (∀ k' vals, k' ≠ ("patient64541", "study1") →
       (k', vals) ∈ g' ↔
       (k', vals) ∈ [(("patient64541", "study1"), [Num 0; Num 0; Num 0; Num 0; Num 0]);
                     (("patient64542", "study1"), [Num 0; Num 1; Num 1; Num 0; Num 1])]) ∧
    (∀ vals,
       (("patient64541", "study1"), vals) ∈
         [(("patient64541", "study1"), [Num 0; Num 0; Num 0; Num 0; Num 0]);
          (("patient64542", "study1"), [Num 0; Num 1; Num 1; Num 0; Num 1])] →
       ∃ vals', (("patient64541", "study1"), vals') ∈ g' ∧ Forall2 cell_le vals vals').
Proof.
  apply (groupby_max_append_monotone chexpert_targets [image_a1; image_b1; image_b2]
           image_a2 ("patient64541", "study1")).
  - vm_compute. reflexivity.
  - intros f Hf. unfold chexpert_targets in Hf. set_unfold.
    destruct_or!; subst f; vm_compute; eauto.
  - reflexivity.
Defined.

End monotonicity.

(** ** The ranking score on aggregated columns *)

Section degenerate.

Lemma matrix_column_groupby_max classes df g i c :
  groupby_max classes df = Ok g → classes !! i = Some c →
  matrix_column (values g) i = Ok (study_column c df).
Proof.
  intros [_ ->]%groupby_max_Ok Hc. unfold values, study_column.
  rewrite map_map. cbn [snd].
  induction (group_keys df) as [|k ks IH]; [done|].
  cbn [map matrix_column]. rewrite (group_max_lookup classes df k i c Hc).
  by rewrite IH.
Qed.

(** A vector in which all labels are the same is constant in that sense. *)
Lemma all_equal_constant_labels (y_true : list cell) :
  (∀ v w, v ∈ y_true → w ∈ y_true → v = w) → constant_labels y_true.
Proof.
  intros Heq. destruct y_true as [|v0 y].
  - left. intros v Hv. by apply elem_of_nil in Hv.
  - destruct (is_positive v0) eqn:Hv0.
    + left. intros v Hv. rewrite (Heq v v0 Hv) by (by left). by apply Is_true_true.
    + right. intros v Hv. rewrite (Heq v v0 Hv) by (by left). by apply Is_true_false.
Qed.

Lemma positives_all (ys ss : list cell) :
  (∀ v, v ∈ ys → is_positive v) →
  filter (λ p : cell * cell, is_positive p.1) (zip ys ss) = zip ys ss.
Proof.
  revert ss. induction ys as [|y ys IH]; intros [|s ss] Hall; try done.
  cbn [zip zip_with]. rewrite filter_cons_True by (apply Hall; by left).
  f_equal. apply IH. intros v Hv. apply Hall. by right.
Qed.

Lemma positives_none (ys ss : list cell) :
  (∀ v, v ∈ ys → ¬ is_positive v) →
  filter (λ p : cell * cell, is_positive p.1) (zip ys ss) = [].
Proof.
  revert ss. induction ys as [|y ys IH]; intros [|s ss] Hall; try done.
  cbn [zip zip_with]. rewrite filter_cons_False by (apply Hall; by left).
  apply IH. intros v Hv. apply Hall. by right.
Qed.

Lemma roc_auc_score_degenerate y_true y_score :
  constant_labels y_true → roc_auc_score y_true y_score = Err DegenerateLabelError.
Proof.
  intros [Hpos|Hneg]; unfold roc_auc_score; cbn zeta.
  - assert (Hf : filter (λ p : cell * cell, is_positive p.1) (zip y_true y_score) =
                 zip y_true y_score)
      by (by apply positives_all).
    rewrite !Hf. rewrite decide_True; [done|]. right. lia.
  - assert (Hf : filter (λ p : cell * cell, is_positive p.1) (zip y_true y_score) = [])
      by (by apply positives_none).
    rewrite !Hf. rewrite decide_True; [done|]. by left.
Qed.

Lemma roc_auc_score_cases y_true y_score :
  roc_auc_score y_true y_score = Err DegenerateLabelError ∨
  ∃ auc, roc_auc_score y_true y_score = Ok auc.
Proof.
  unfold roc_auc_score; cbn zeta. case_decide; [by left|right; by eexists].
Qed.

Lemma auc_scores_from_degenerate classes df pdf ga gp before i after c scores :
  groupby_max classes df = Ok ga →
  groupby_max classes pdf = Ok gp →
  (∀ j, j ∈ before → is_Some (classes !! j)) →
  classes !! i = Some c →
  constant_labels (study_column c df) →
  auc_scores_from classes (values ga) (values gp) (before ++ i :: after) scores =
    Err DegenerateLabelError.
Proof.
  intros Hga Hgp Hbefore Hc Hconst. revert scores.
  induction before as [|j before IH]; intros scores.
  - cbn [app auc_scores_from]. rewrite Hc.
    rewrite (matrix_column_groupby_max _ _ _ _ _ Hga Hc),
      (matrix_column_groupby_max _ _ _ _ _ Hgp Hc). cbn [rbind].
    by rewrite roc_auc_score_degenerate.
  - cbn [app auc_scores_from].
    destruct (Hbefore j) as [cj Hcj]; [by left|]. rewrite Hcj.
    rewrite (matrix_column_groupby_max _ _ _ _ _ Hga Hcj),
      (matrix_column_groupby_max _ _ _ _ _ Hgp Hcj). cbn [rbind].
    destruct (roc_auc_score_cases (study_column cj df) (study_column cj pdf))
      as [->|[auc ->]]; [done|]. cbn [rbind].
    apply IH. intros j' Hj'. apply Hbefore. by right.
Qed.

(** C4: when the aggregated ground truth of one of the evaluated findings is
    all-positive or all-negative over the studies, the evaluation fails with
    [DegenerateLabelError] and reports no score. *)
Theorem validation_eval_degenerate (classes : list string) (df : DataFrame)
    (preds : list (list Qc)) (i : nat) (c : string) :
  has_classes classes df →
  is_ok (assign_preds classes preds df) →
  i < length chexpert_targets →
  classes !! i = Some c →
  constant_labels (study_column c df) →
  validation_eval classes df preds = Err DegenerateLabelError.
Proof.
  intros Hcols Hassign Hi Hc Hconst. unfold validation_eval.
  assert (Hga : groupby_max classes df =
    Ok (map (λ k, (k, group_max classes df k)) (group_keys df)))
    by (by apply groupby_max_Ok).
  rewrite Hga. cbn [rbind].
  destruct (assign_preds classes preds df) as [pdf|] eqn:Hpdf; [|done]. cbn [rbind].
  assert (Hgp : groupby_max classes pdf =
    Ok (map (λ k, (k, group_max classes pdf k)) (group_keys pdf))).
  { apply groupby_max_Ok. split; [|done]. by eapply assign_preds_has_classes. }
  rewrite Hgp. cbn [rbind].
  assert (Hseq : seq 0 (length chexpert_targets) =
    seq 0 i ++ i :: seq (S i) (length chexpert_targets - S i)).
  { replace (length chexpert_targets) with (i + S (length chexpert_targets - S i)) at 1 by lia.
    by rewrite seq_app. }
  rewrite Hseq.
  rewrite (auc_scores_from_degenerate classes df pdf _ _ (seq 0 i) i _ c ∅ Hga Hgp); [done| |done..].
  intros j Hj%elem_of_seq. apply lookup_lt_is_Some.
  apply lookup_lt_Some in Hc. lia.
Qed.

End degenerate.

(** ** Identical scores *)

Section constant_scores.

Local Open Scope Qc_scope.

Lemma Qc_of_nat_add (n m : nat) : Qc_of_nat (n + m) = Qc_of_nat n + Qc_of_nat m.
Proof. unfold Qc_of_nat. by rewrite Nat2Z.inj_add, Z2Qc_inj_add. Qed.

Lemma Qc_of_nat_0 : Qc_of_nat 0 = 0.
Proof. apply Z2Qc_inj_0. Qed.

Lemma Qc_of_nat_S (n : nat) : Qc_of_nat (S n) = 1 + Qc_of_nat n.
Proof.
  change (S n) with (1 + n)%nat. rewrite Qc_of_nat_add. f_equal.
Qed.

Lemma Qc_of_nat_ne_0 (n : nat) : n ≠ 0%nat → Qc_of_nat n ≠ 0.
Proof.
  intros Hn H. apply Hn, Nat2Z.inj, Z2Qc_inj. unfold Qc_of_nat in H.
  rewrite H. symmetry. apply Z2Qc_inj_0.
Qed.

Lemma half_eq : half = 1 / 2.
Proof. by apply Qc_is_canon. Qed.

Lemma score_lt_irrefl s : score_lt (Num s) (Num s) = false.
Proof.
  simpl. apply bool_decide_eq_false. apply (irreflexivity Qclt).
Qed.

Lemma score_eq_refl s : score_eq (Num s) (Num s) = true.
Proof. simpl. by apply bool_decide_eq_true. Qed.

(** Among identical scores every score has the middle rank. *)
Lemma average_rank_constant (scores : list cell) (s : Qc) :
  (∀ v, v ∈ scores → v = Num s) →
  average_rank scores (Num s) = (Qc_of_nat (length scores) + 1) / 2.
Proof.
  intros Hall. unfold average_rank.
  assert (Hlt : filter (λ t, score_lt t (Num s)) scores = []).
  { apply filter_none. intros v Hv. rewrite (Hall v Hv), score_lt_irrefl. by intros []. }
  assert (Heq : filter (λ t, score_eq t (Num s)) scores = scores).
  { clear Hlt. induction scores as [|v scores IH]; [done|].
    rewrite filter_cons_True.
    - f_equal. apply IH. intros w Hw. apply Hall. by right.
    - rewrite (Hall v) by (by left). by rewrite score_eq_refl. }
  rewrite Hlt, Heq. cbn [length]. by rewrite Qc_of_nat_0, Qcplus_0_l.
Qed.

Lemma rank_sum_constant (f : cell → Qc) (r : Qc) (l : list (cell * cell)) :
  (∀ p, p ∈ l → f p.2 = r) →
  foldr (λ p acc, f p.2 + acc) 0 l = Qc_of_nat (length l) * r.
Proof.
  induction l as [|p l IH]; intros Hall.
  - cbn [foldr length]. rewrite Qc_of_nat_0. ring.
  - cbn [foldr length]. rewrite IH by (intros q Hq; apply Hall; by right).
    rewrite (Hall p) by (by left). rewrite Qc_of_nat_S. ring.
Qed.

Lemma filter_length_split {A} (P : A → Prop) `{∀ x, Decision (P x)} (l : list A) :
  (length (filter P l) + length (filter (λ x, ¬ P x) l) = length l)%nat.
Proof. by rewrite <- length_app, filter_app_complement. Qed.

Lemma filter_nonempty {A} (P : A → Prop) `{∀ x, Decision (P x)} (l : list A) x :
  x ∈ l → P x → length (filter P l) ≠ 0%nat.
Proof.
  intros Hx HP Hlen. apply length_zero_iff_nil in Hlen.
  by apply (filter_nil_not_elem_of P l x).
Qed.

Lemma elem_of_zip_l (ys ss : list cell) v :
  length ys = length ss → v ∈ ys → ∃ s, (v, s) ∈ zip ys ss.
Proof.
  revert ss. induction ys as [|y ys IH]; intros [|s ss] Hlen Hv; simpl in *; try done.
  - by apply elem_of_nil in Hv.
  - apply elem_of_cons in Hv as [->|Hv].
    + exists s. by left.
    + destruct (IH ss) as [s' Hs']; [lia|done|]. exists s'. by right.
Qed.

Lemma elem_of_zip_snd (ys ss : list cell) p : p ∈ zip ys ss → p.2 ∈ ss.
Proof.
  revert ss. induction ys as [|y ys IH]; intros [|s ss] Hp; simpl in *;
    try (by apply elem_of_nil in Hp).
  apply elem_of_cons in Hp as [->|Hp]; [by left|]. right. by apply IH.
Qed.

Lemma roc_auc_score_constant (y_true y_score : list cell) (s : Qc) :
  length y_true = length y_score →
  (∃ v, v ∈ y_true ∧ is_positive v) →
  (∃ v, v ∈ y_true ∧ ¬ is_positive v) →
  (∀ v, v ∈ y_score → v = Num s) →
  roc_auc_score y_true y_score = Ok half.
Proof.
  intros Hlen (vp & Hvp & Hpos) (vn & Hvn & Hneg) Hall.
  unfold roc_auc_score; cbv zeta.
  pose proof (filter_length_split (λ p : cell * cell, is_positive p.1)
                (zip y_true y_score)) as Hsplit.
  assert (Hp : length (filter (λ p : cell * cell, is_positive p.1)
                         (zip y_true y_score)) ≠ 0%nat).
  { destruct (elem_of_zip_l y_true y_score vp Hlen Hvp) as [sp Hsp].
    by apply (filter_nonempty (λ p : cell * cell, is_positive p.1) _ (vp, sp)). }
  assert (Hn : length (filter (λ p : cell * cell, ¬ is_positive p.1)
                         (zip y_true y_score)) ≠ 0%nat).
  { destruct (elem_of_zip_l y_true y_score vn Hlen Hvn) as [sn Hsn].
    by apply (filter_nonempty (λ p : cell * cell, ¬ is_positive p.1) _ (vn, sn)). }
  assert (Hrank : foldr (λ (p : cell * cell) acc,
                     average_rank (map snd (zip y_true y_score)) p.2 + acc) 0
                    (filter (λ p : cell * cell, is_positive p.1) (zip y_true y_score)) =
                  Qc_of_nat (length (filter (λ p : cell * cell, is_positive p.1)
                                       (zip y_true y_score))) *
                  ((Qc_of_nat (length (zip y_true y_score)) + 1) / 2)).
  { rewrite <- (length_map snd (zip y_true y_score)).
    apply (rank_sum_constant (average_rank (map snd (zip y_true y_score)))).
    intros p [_ Hp']%list_elem_of_filter.
    rewrite (Hall p.2) by (by apply (elem_of_zip_snd y_true)).
    apply average_rank_constant. intros v. change (map ?g ?l) with (g <$> l).
    intros (q & -> & Hq)%list_elem_of_fmap. by apply Hall, (elem_of_zip_snd y_true). }
  rewrite Hrank. clear Hrank.
  revert Hsplit Hp Hn.
  generalize (length (filter (λ p : cell * cell, is_positive p.1) (zip y_true y_score))).
  generalize (length (filter (λ p : cell * cell, ¬ is_positive p.1) (zip y_true y_score))).
  generalize (length (zip y_true y_score)).
  intros n n_neg n_pos Hsplit Hp Hn. subst n.
  replace (n_pos + n_neg - n_pos)%nat with n_neg by lia.
  rewrite decide_False by lia.
  rewrite Qc_of_nat_add.
  apply Qc_of_nat_ne_0 in Hp, Hn. f_equal. rewrite half_eq. by field.
Qed.

End constant_scores.

(** ** The report *)

Section report.

Local Open Scope Qc_scope.

Lemma map_fold_sum_constant (d : gmap string Qc) (r : Qc) :
  (∀ k v, d !! k = Some v → v = r) →
  map_fold (λ _ v acc, v + acc) 0 d = Qc_of_nat (size d) * r.
Proof.
  induction d as [|k v d Hk IH] using map_ind; intros Hall.
  - rewrite map_fold_empty, map_size_empty, Qc_of_nat_0. ring.
  - rewrite map_fold_insert_L; [|intros; ring|done].
    rewrite map_size_insert_None by done. rewrite Qc_of_nat_S.
    rewrite IH.
    + rewrite (Hall k v) by apply lookup_insert_eq. ring.
    + intros k' v' Hk'. apply (Hall k'). rewrite lookup_insert_ne; [done|].
      intros ->. by rewrite Hk in Hk'.
Qed.

Lemma dict_average_constant (d : gmap string Qc) (r : Qc) :
  d ≠ ∅ → (∀ k v, d !! k = Some v → v = r) → dict_average d = r.
Proof.
  intros Hne Hall. unfold dict_average. rewrite (map_fold_sum_constant d r Hall).
  apply map_size_non_empty_iff, Qc_of_nat_ne_0 in Hne. by field.
Qed.

Lemma report_lines_Ok (d : gmap string Qc) (targets : list string) :
  (∀ k, k ∈ targets → is_Some (d !! k) ∧ is_Some (chexpert_auc_scores !! k)) →
  ∃ lines, report_lines d targets = Ok lines.
Proof.
  induction targets as [|k targets IH]; intros Hall; [by eexists|].
  destruct (Hall k) as [[auc Hauc] [paper Hpaper]]; [by left|].
  destruct IH as [lines Hlines]; [intros k' Hk'; apply Hall; by right|].
  cbn [report_lines]. rewrite Hauc, Hpaper, Hlines. by eexists.
Qed.

Lemma chexpert_auc_scores_targets k :
  k ∈ chexpert_targets → is_Some (chexpert_auc_scores !! k).
Proof.
  unfold chexpert_targets. intros Hk. set_unfold.
  destruct_or!; subst k; vm_compute; eauto.
Qed.

Lemma study_column_length c df : length (study_column c df) = length (group_keys df).
Proof. unfold study_column. apply length_map. Qed.

Lemma auc_scores_from_constant classes df pdf ga gp indices scores :
  groupby_max classes df = Ok ga →
  groupby_max classes pdf = Ok gp →
  (∀ j, j ∈ indices → ∃ c, classes !! j = Some c ∧
     roc_auc_score (study_column c df) (study_column c pdf) = Ok half) →
  ∃ d, auc_scores_from classes (values ga) (values gp) indices scores = Ok d ∧
    (∀ k, (∃ j, j ∈ indices ∧ classes !! j = Some k) → d !! k = Some half) ∧
    (∀ k, (¬ ∃ j, j ∈ indices ∧ classes !! j = Some k) → d !! k = scores !! k).
Proof.
  intros Hga Hgp. revert scores.
  induction indices as [|j indices IH]; intros scores Hall.
  - exists scores. split; [done|]. split; [|done].
    intros k (j & Hj & _). by apply elem_of_nil in Hj.
  - destruct (Hall j) as (c & Hc & Hauc); [by left|].
    destruct (IH (<[c:=half]> scores)) as (d & Hd & Hin & Hout).
    { intros j' Hj'. apply Hall. by right. }
    exists d. split; [|split].
    + cbn [auc_scores_from]. rewrite Hc.
      rewrite (matrix_column_groupby_max _ _ _ _ _ Hga Hc),
        (matrix_column_groupby_max _ _ _ _ _ Hgp Hc). cbn [rbind].
      rewrite Hauc. cbn [rbind]. exact Hd.
    + intros k (j' & Hj' & Hk).
      destruct (decide (Exists (λ i, classes !! i = Some k) indices)) as [Hex|Hno].
      * apply Hin. apply Exists_exists in Hex as (i & Hi & Hik). by exists i.
      * rewrite Hout.
        -- apply elem_of_cons in Hj' as [->|Hj'].
           ++ assert (c = k) as -> by congruence. apply lookup_insert_eq.
           ++ destruct Hno. apply Exists_exists. by exists j'.
        -- intros (i & Hi & Hik). apply Hno, Exists_exists. by exists i.
    + intros k Hno. rewrite Hout.
      * apply lookup_insert_ne. intros ->. apply Hno. exists j. split; [by left|done].
      * intros (i & Hi & Hik). apply Hno. exists i. split; [by right|done].
Qed.

End report.

Section constant_predictor.

(** C5: when every evaluated finding has a positive and a negative study and
    the aggregated scores of a finding are the same for every study, the
    evaluation succeeds and reports an AUC of exactly one half for each
    finding (tied scores sharing their average rank), hence also on
    average. *)
Theorem validation_eval_constant_scores (classes : list string) (df pdf : DataFrame)
    (preds : list (list Qc)) :
  take (length chexpert_targets) classes ≡ₚ chexpert_targets →
  has_classes classes df →
  assign_preds classes preds df = Ok pdf →
  (∀ c, c ∈ chexpert_targets →
     (∃ v, v ∈ study_column c df ∧ is_positive v) ∧
     (∃ v, v ∈ study_column c df ∧ ¬ is_positive v) ∧
     (∃ s, ∀ v, v ∈ study_column c pdf → v = Num s)) →
  ∃ rep, validation_eval classes df preds = Ok rep ∧
    (∀ c, c ∈ chexpert_targets → auc_scores rep !! c = Some half) ∧
    avg_auc rep = half.
Proof.
  intros Hperm Hcols Hpdf Hstudies. unfold validation_eval.
  assert (Hga : groupby_max classes df =
    Ok (map (λ k, (k, group_max classes df k)) (group_keys df)))
    by (by apply groupby_max_Ok).
  assert (Hgp : groupby_max classes pdf =
    Ok (map (λ k, (k, group_max classes pdf k)) (group_keys pdf))).
  { apply groupby_max_Ok. split; [|done]. by eapply assign_preds_has_classes. }
  rewrite Hga, Hpdf. cbn [rbind]. rewrite Hgp. cbn [rbind].
  assert (Hidx : ∀ c, c ∈ chexpert_targets ↔
            ∃ j, j ∈ seq 0 (length chexpert_targets) ∧ classes !! j = Some c).
  { intros c. rewrite <- Hperm, list_elem_of_lookup. split.
    - intros [j Hj]. apply lookup_take_Some in Hj as [Hj Hlt].
      exists j. split; [|done]. apply elem_of_seq. lia.
    - intros (j & Hj%elem_of_seq & Hc). exists j.
      apply lookup_take_Some. split; [done|lia]. }
  assert (Hlen : length (take (length chexpert_targets) classes) = length chexpert_targets)
    by (by rewrite Hperm).
  destruct (auc_scores_from_constant classes df pdf _ _
              (seq 0 (length chexpert_targets)) ∅ Hga Hgp) as (d & Hd & Hin & Hout).
  { intros j Hj. assert (Hj' := Hj). apply elem_of_seq in Hj'.
    destruct (lookup_lt_is_Some_2 (take (length chexpert_targets) classes) j)
      as [c Hc]; [lia|].
    apply lookup_take_Some in Hc as [Hc _]. exists c. split; [done|].
    destruct (Hstudies c) as (Hpos & Hneg & s & Hs).
    { apply Hidx. by exists j. }
    apply (roc_auc_score_constant _ _ s); [|done..].
    rewrite !study_column_length. f_equal. symmetry.
    by eapply assign_preds_group_keys. }
  rewrite Hd. cbn [rbind].
  destruct (report_lines_Ok d chexpert_targets) as [lines Hlines].
  { intros k Hk. split; [|by apply chexpert_auc_scores_targets].
    rewrite (Hin k) by (by apply Hidx). by eexists. }
  rewrite Hlines. cbn [rbind]. eexists. split; [done|]. cbn [auc_scores avg_auc].
  split.
  - intros c Hc. by apply Hin, Hidx.
  - apply dict_average_constant.
    + intros Hempty.
      assert (Hat : d !! "Atelectasis" = Some half)
        by (apply Hin, Hidx; unfold chexpert_targets; set_solver).
      by rewrite Hempty, lookup_empty in Hat.
    + intros k v Hk.
      destruct (decide (Exists (λ j, classes !! j = Some k)
                          (seq 0 (length chexpert_targets)))) as [Hex|Hno].
      * apply Exists_exists in Hex. rewrite (Hin k Hex) in Hk. congruence.
      * rewrite Hout, lookup_empty in Hk; [done|].
        intros Hex. by apply Hno, Exists_exists.
Qed.

End constant_predictor.

(** ** The evaluation on the sample tables *)

Example validation_eval_valid_df :
  auc_scores <$> (match validation_eval chexpert_targets valid_df constant_preds with
                  | Ok rep => Some rep
                  | Err _ => None
                  end) =
  Some (list_to_map [("Atelectasis", half); ("Cardiomegaly", half);
                     ("Consolidation", half); ("Edema", half);
                     ("Pleural Effusion", half)]).
Proof. vm_compute. reflexivity. Qed.

Example validation_eval_valid_df_degenerate :
  validation_eval chexpert_targets valid_df_degenerate some_preds =
  Err DegenerateLabelError.
Proof. vm_compute. reflexivity. Qed.

Lemma validation_eval_degenerate_witness :
  validation_eval chexpert_targets valid_df_degenerate some_preds =
  Err DegenerateLabelError.
Proof.
  apply (validation_eval_degenerate chexpert_targets valid_df_degenerate some_preds
           2 "Consolidation").
  - vm_compute. exact I.
  - vm_compute. exact I.
  - simpl. lia.
  - reflexivity.
  - right. intros v Hv. vm_compute in Hv.
    apply list_elem_of_In in Hv. simpl in Hv.
    destruct Hv as [<-|[<-|[]]]; vm_compute; exact id.
Defined.


Lemma validation_eval_constant_scores_witness :
  ∃ rep, validation_eval chexpert_targets valid_df constant_preds = Ok rep ∧
    (∀ c, c ∈ chexpert_targets → auc_scores rep !! c = Some half) ∧
    avg_auc rep = half.
Proof.
  apply (validation_eval_constant_scores chexpert_targets valid_df valid_df_constant
           constant_preds).
  - reflexivity.
  - vm_compute. exact I.
  - vm_compute. reflexivity.
  - intros c Hc. apply list_elem_of_In in Hc. simpl in Hc.
    destruct Hc as [<-|[<-|[<-|[<-|[<-|[]]]]]].
    all: split; [exists (Num 1); split; [cell_in_computed|vm_compute; exact I]|].
    all: split; [exists (Num 0); split; [cell_in_computed|vm_compute; exact id]|].
    + exists half. cells_all_computed.
    + exists fifth. cells_all_computed.
    + exists half. cells_all_computed.
    + exists fifth. cells_all_computed.
    + exists half. cells_all_computed.
Defined.

(** * Further properties of the notebook *)

(** ** The label deriver: errors, encoding, columns *)

Section label_deriver_more.

Lemma has_columns_dec_Forall cols r :
  has_columns cols r ↔ Forall (λ f, is_Some (findings r !! f)) cols.
Proof. unfold has_columns. by rewrite Forall_forall. Qed.

Lemma has_columns_cons f cols r :
  has_columns (f :: cols) r ↔ is_Some (findings r !! f) ∧ has_columns cols r.
Proof.
  unfold has_columns. split.
  - intros H. split; [apply H; by left|]. intros g Hg. apply H. by right.
  - intros [Hf H] g [->|Hg]%elem_of_cons; auto.
Qed.

Lemma append_features_missing test features r acc :
  ¬ has_columns features r → append_features test features r acc = Err KeyError.
Proof.
  revert acc. induction features as [|f fs IH]; intros acc Hno.
  - destruct Hno. intros f Hf. by apply elem_of_nil in Hf.
  - cbn [append_features]. unfold getitem.
    destruct (findings r !! f) as [c|] eqn:Hf; cbn [rbind]; [|done].
    apply IH. intros Hfs. apply Hno, has_columns_cons. split; [by eexists|done].
Qed.

Lemma has_columns_decide cols r : has_columns cols r ∨ ¬ has_columns cols r.
Proof.
  rewrite has_columns_dec_Forall.
  destruct (decide (Forall (λ f, is_Some (findings r !! f)) cols)); auto.
Qed.

Lemma feature_list_missing r :
  ¬ has_columns policy_features r → feature_list r = Err KeyError.
Proof.
  intros Hno. unfold feature_list.
  destruct (has_columns_decide u_one_features r) as [H1|H1].
  - rewrite (append_features_spec _ u_one_features r []) by done. cbn [rbind].
    apply append_features_missing. intros H0. apply Hno, has_columns_app. done.
  - by rewrite append_features_missing.
Qed.

Lemma feature_string_cases (r : row) :
  (has_columns policy_features r ∧ ∃ s, feature_string r = Ok s) ∨
  (¬ has_columns policy_features r ∧ feature_string r = Err KeyError).
Proof.
  unfold feature_string.
  destruct (has_columns_decide policy_features r) as [Hc|Hno].
  - left. split; [done|]. rewrite (feature_list_filter r Hc). by eexists.
  - right. split; [done|]. by rewrite (feature_list_missing r Hno).
Qed.

Lemma feature_string_Ok_iff (r : row) :
  has_columns policy_features r ↔ ∃ s, feature_string r = Ok s.
Proof.
  destruct (feature_string_cases r) as [[Hc Hs]|[Hno He]]; [done|].
  rewrite He. split; [done|]. by intros [s Hs].
Qed.

(** X1: [feature_string] raises exactly when the row lacks one of the five
    policy-governed columns, and what it raises is then a [KeyError]; on
    every other row it returns a label string. *)
Theorem feature_string_KeyError (r : row) :
  (feature_string r = Err KeyError ↔ ¬ has_columns policy_features r) ∧
  (∀ e, feature_string r = Err e → e = KeyError) ∧
  (has_columns policy_features r ↔ ∃ s, feature_string r = Ok s).
Proof.
  split; [|split; [|apply feature_string_Ok_iff]].
  - destruct (feature_string_cases r) as [[Hc [s Hs]]|[Hno He]].
    + rewrite Hs. split; [done|]. by intros [].
    + by rewrite He.
  - destruct (feature_string_cases r) as [[Hc [s Hs]]|[Hno He]].
    + by rewrite Hs.
    + rewrite He. by intros e [= <-].
Qed.

Lemma sublist_sublists_of {A} (l k : list A) : sublist l k → l ∈ sublists_of k.
Proof.
  induction 1 as [|x l k _ IH|x l k _ IH]; cbn [sublists_of].
  - by left.
  - apply elem_of_app. left. change (map ?g ?l) with (g <$> l).
    apply list_elem_of_fmap. by exists l.
  - apply elem_of_app. by right.
Qed.

Lemma feature_list_sublist r l : feature_list r = Ok l → sublist l policy_features.
Proof.
  intros Hl. destruct (has_columns_decide policy_features r) as [Hc|Hno].
  - rewrite (feature_list_filter r Hc) in Hl. injection Hl as <-.
    apply sublist_app; apply sublist_filter.
  - by rewrite (feature_list_missing r Hno) in Hl.
Qed.

(** X2: the label string determines the derived label set: two rows with the
    same label string have the same list of findings. *)
Theorem feature_string_injective (r1 r2 : row) (l1 l2 : list string) :
  feature_list r1 = Ok l1 →
  feature_list r2 = Ok l2 →
  feature_string r1 = feature_string r2 →
  l1 = l2.
Proof.
  intros H1 H2. unfold feature_string. rewrite H1, H2. cbn [rbind].
  intros [= Heq]. revert Heq.
  apply feature_list_sublist, sublist_sublists_of in H1.
  apply feature_list_sublist, sublist_sublists_of in H2.
  assert (Hall : Forall (λ k1, Forall (λ k2,
            String.concat ";" k1 = String.concat ";" k2 → k1 = k2)
            (sublists_of policy_features)) (sublists_of policy_features))
    by (apply (bool_decide_unpack _); vm_compute; exact I).
  rewrite Forall_forall in Hall. specialize (Hall l1 H1).
  rewrite Forall_forall in Hall. exact (Hall l2 H2).
Qed.

End label_deriver_more.



(** ** Paths and identifiers *)

Section paths.





Lemma split_maxsplit_prefix n (a t : string) :
  separators a = 0 →
  split_maxsplit (S n) (a +:+ "/" +:+ t)%string = a :: split_maxsplit n t.
Proof.
  induction a as [|c a IH]; intros Ha.
  - done.
  - cbn [separators] in Ha. change ((String c a +:+ "/" +:+ t)%string)
      with (String c (a +:+ "/" +:+ t)%string).
    cbn [split_maxsplit]. destruct (Ascii.eqb c "/"%char); [done|].
    by rewrite IH.
Qed.

Lemma chexpert_path_patient root split p s file :
  separators root = 0 → separators split = 0 → separators p = 0 →
  str_split 3 (chexpert_path root split p s file) !! 2 = Some p.
Proof.
  intros Hr Hs Hp. unfold chexpert_path, str_split.
  by rewrite !split_maxsplit_prefix by done.
Qed.

Lemma chexpert_path_study root split p s file :
  separators root = 0 → separators split = 0 → separators p = 0 →
  separators s = 0 →
  str_split 4 (chexpert_path root split p s file) !! 3 = Some s.
Proof.
  intros Hr Hs Hp Hst. unfold chexpert_path, str_split.
  by rewrite !split_maxsplit_prefix by done.
Qed.

Lemma separators_app (a b : string) :
  separators (a +:+ b)%string = separators a + separators b.
Proof.
  induction a as [|c a IH]; [done|]. simpl.
  destruct (Ascii.eqb c "/"%char); simpl; by rewrite IH.
Qed.

(** X5: on a non-empty frame whose paths all have the CheXpert layout
    [root/split/patient/study/file], with no [/] inside the first four
    parts, the derivation succeeds and gives every row exactly its patient
    and study parts. *)
Theorem add_patient_study_chexpert_layout (df : DataFrame) :
  df ≠ [] →
  (∀ r, r ∈ df → ∃ root split p s file,
     Path r = Some (chexpert_path root split p s file) ∧
     separators root = 0 ∧ separators split = 0 ∧
     separators p = 0 ∧ separators s = 0) →
  ∃ df', add_patient_study df = Ok df' ∧
    length df' = length df ∧
    ∀ i r root split p s file,
      df !! i = Some r →
      Path r = Some (chexpert_path root split p s file) →
      separators root = 0 → separators split = 0 →
      separators p = 0 → separators s = 0 →
      ∃ r', df' !! i = Some r' ∧ patient r' = Some p ∧ study r' = Some s.
Proof.
  intros Hne Hall. exists (map with_identifiers df).
  split; [|split; [apply length_map|]].
  - destruct df as [|r0 df]; [done|].
    destruct (Hall r0) as (root & split & p & s & file & Hp & Hr & Hs & Hpt & Hst);
      [by left|].
    destruct (add_patient_study_cases (r0 :: df))
      as [[_ Hok]|[[[_ Hblank] _]|[[Hno _] _]]]; [done| |].
    + apply Forall_cons in Hblank as [Hblank _]. congruence.
    + destruct Hno. exists (chexpert_path root split p s file). split.
      * rewrite <- Hp. cbn [map]. by left.
      * apply lookup_lt_is_Some. by rewrite chexpert_path_study.
  - intros i r root split p s file Hi Hp Hr Hs Hpt Hst.
    exists (with_identifiers r). split.
    + change (map ?g ?l) with (g <$> l). by rewrite list_lookup_fmap, Hi.
    + unfold with_identifiers. simpl. rewrite Hp. simpl.
      by rewrite chexpert_path_patient, chexpert_path_study.
Qed.

(** X6: the derivation writes the [patient] and [study] columns and nothing
    else: the rows keep their number, order, path, split flag and finding
    columns, and the label column computed after it is the one computed
    before it. *)
Theorem add_patient_study_preserves (df df' : DataFrame) :
  add_patient_study df = Ok df' →
  length df' = length df ∧
  map Path df' = map Path df ∧
  map train_valid df' = map train_valid df ∧
  map findings df' = map findings df ∧
  feature_string_column df' = feature_string_column df.
Proof.
  intros Hok.
  destruct (add_patient_study_cases df) as [[_ Heq]|[[_ Herr]|[_ Herr]]];
    [|congruence..].
  rewrite Heq in Hok. injection Hok as <-.
  rewrite length_map, !map_map. do 4 (split; [reflexivity|]).
  clear Heq. induction df as [|r df IH]; [done|].
  cbn [map feature_string_column]. rewrite IH.
  assert (Hr : feature_string (with_identifiers r) = feature_string r).
  { unfold feature_string, feature_list.
    rewrite (append_features_ext _ u_one_features (with_identifiers r) r []) by done.
    destruct (append_features _ u_one_features r []) as [l|e]; cbn [rbind]; [|done].
    by rewrite (append_features_ext _ u_zero_features (with_identifiers r) r l). }
  by rewrite Hr.
Qed.

End paths.

(** ** More on the grouped maximum *)

Section grouped_more.

Lemma is_Some_study_key r : is_Some (study_key r) ↔ identified r.
Proof.
  unfold identified, study_key.
  destruct (patient r) as [p|], (study r) as [s|]; simpl; unfold is_Some;
    naive_solver.
Qed.

Lemma omap_study_key_filter (df : DataFrame) :
  omap study_key (filter identified df) = omap study_key df.
Proof.
  induction df as [|r df IH]; [done|].
  rewrite filter_cons. destruct (decide (identified r)) as [Hk|Hno].
  - csimpl. by rewrite IH.
  - csimpl. destruct (study_key r) as [k|] eqn:Hk; [|exact IH].
    destruct Hno. apply is_Some_study_key. by eexists.
Qed.

Lemma group_rows_filter (df : DataFrame) k :
  group_rows (filter identified df) k = group_rows df k.
Proof.
  unfold group_rows. induction df as [|r df IH]; [done|].
  rewrite (filter_cons identified).
  destruct (decide (identified r)) as [Hk|Hno].
  - rewrite !filter_cons, IH. done.
  - rewrite IH. rewrite (filter_cons_False _ r df); [done|].
    intros Hr. apply Hno, is_Some_study_key. by eexists.
Qed.

Lemma length_remove_dups_le {A} `{EqDecision A} (l : list A) :
  length (remove_dups l) ≤ length l.
Proof.
  induction l as [|x l IH]; [done|]. cbn [remove_dups].
  case_decide; simpl; lia.
Qed.

Lemma length_omap_le {A B} (f : A → option B) (l : list A) :
  length (omap f l) ≤ length l.
Proof.
  induction l as [|x l IH]; [done|]. csimpl. destruct (f x); simpl; lia.
Qed.

Lemma length_group_keys_le df : length (group_keys df) ≤ length df.
Proof.
  unfold group_keys. rewrite merge_sort_Permutation.
  etrans; [apply length_remove_dups_le|apply length_omap_le].
Qed.

(** X7: a row whose patient or study is blank takes no part in the
    aggregation.  On a table that has the class columns, the aggregated
    table is the one obtained from the rows that carry both identifiers
    alone: it has an entry for each pair some row carries, holding the
    maxima over those rows, and no more entries than there are such rows. *)
Theorem groupby_max_drops_blank_keys (classes : list string) (df : DataFrame) :
  Forall (has_columns classes) df →
  ∃ g, groupby_max classes df = Ok g ∧
    groupby_max classes (filter identified df) = Ok g ∧
    (∀ p s, (p, s) ∈ map fst g ↔
       ∃ r, r ∈ df ∧ patient r = Some p ∧ study r = Some s) ∧
    (∀ p s vals, ((p, s), vals) ∈ g →
       ∀ j c, classes !! j = Some c →
         ∃ v, vals !! j = Some v ∧ is_study_max (filter identified df) p s c v) ∧
    length g ≤ length (filter identified df).
Proof.
  intros Hcols.
  assert (Hg : groupby_max classes df =
    Ok (map (λ k, (k, group_max classes df k)) (group_keys df))).
  { apply groupby_max_Ok. split; [by apply has_classes_Forall|done]. }
  assert (Hgf : groupby_max classes (filter identified df) =
    Ok (map (λ k, (k, group_max classes df k)) (group_keys df))).
  { apply groupby_max_Ok. split.
    - apply has_classes_Forall. rewrite Forall_forall in *.
      intros r [_ Hr]%list_elem_of_filter. by apply Hcols.
    - unfold group_keys. rewrite omap_study_key_filter. apply map_ext. intros k.
      unfold group_max. by rewrite group_rows_filter. }
  eexists. split; [exact Hg|]. split; [exact Hgf|].
  destruct (groupby_max_entries _ _ _ Hg) as (_ & Hkeys & _).
  destruct (groupby_max_entries _ _ _ Hgf) as (_ & _ & Hvals).
  split; [exact Hkeys|]. split.
  - intros p s vals Hin. by apply Hvals.
  - rewrite length_map. unfold group_keys. rewrite <- omap_study_key_filter.
    apply length_group_keys_le.
Qed.

(** X8: the aggregated table lists the studies in increasing order of
    (patient, study), each study once, with one aggregate per class, and it
    never has more rows than the table it was computed from. *)
Theorem groupby_max_sorted (classes : list string) (df : DataFrame)
    (g : list (key * list cell)) :
  groupby_max classes df = Ok g →
  Sorted key_le (map fst g) ∧
  NoDup (map fst g) ∧
  Forall (λ kv, length kv.2 = length classes) g ∧
  length g ≤ length df.
Proof.
  intros Hg. pose proof (groupby_max_keys _ _ _ Hg) as Hkeys.
  rewrite Hkeys. split; [apply group_keys_sorted|].
  split; [apply group_keys_NoDup|]. split.
  - apply groupby_max_Ok in Hg as [_ ->]. apply Forall_forall.
    change (map ?f ?l) with (f <$> l).
    intros kv (k & -> & _)%list_elem_of_fmap. cbn [snd]. unfold group_max.
    by rewrite length_map.
  - rewrite <- (length_map fst g), Hkeys. apply length_group_keys_le.
Qed.

Lemma group_max_app classes df1 df2 k :
  group_max classes (df1 ++ df2) k =
  zip_with cell_max (group_max classes df1 k) (group_max classes df2 k).
Proof.
  unfold group_max. induction classes as [|c classes IH]; [done|].
  cbn [map zip_with]. rewrite IH. f_equal.
  rewrite group_rows_app. unfold column. by rewrite map_app, column_max_app.
Qed.

Lemma group_rows_not_key df k : k ∉ group_keys df → group_rows df k = [].
Proof.
  intros Hk. apply filter_none. intros r Hr Hkey. apply Hk.
  apply elem_of_group_keys. by exists r.
Qed.

Lemma zip_with_cell_max_NaN_r classes (f : string → cell) :
  zip_with cell_max (map f classes) (map (λ _, NaN) classes) = map f classes.
Proof.
  induction classes as [|c classes IH]; [done|].
  cbn [map zip_with]. by rewrite IH, cell_max_NaN_r.
Qed.

Lemma zip_with_cell_max_NaN_l classes (f : string → cell) :
  zip_with cell_max (map (λ _, NaN) classes) (map f classes) = map f classes.
Proof.
  induction classes as [|c classes IH]; [done|].
  cbn [map zip_with]. by rewrite IH.
Qed.

Lemma group_max_not_key classes df k :
  k ∉ group_keys df → group_max classes df k = map (λ _, NaN) classes.
Proof. intros Hk. unfold group_max. by rewrite group_rows_not_key. Qed.

Lemma group_keys_app df1 df2 k :
  k ∈ group_keys (df1 ++ df2) ↔ k ∈ group_keys df1 ∨ k ∈ group_keys df2.
Proof.
  rewrite !elem_of_group_keys. setoid_rewrite elem_of_app. naive_solver.
Qed.

(** X9: aggregating the concatenation of two tables merges their aggregated
    tables: a study present in both gets, column by column, the maximum of
    its two aggregates, and a study present in one keeps its aggregates. *)
Theorem groupby_max_concat (classes : list string) (df1 df2 : DataFrame)
    (g1 g2 : list (key * list cell)) :
  groupby_max classes df1 = Ok g1 →
  groupby_max classes df2 = Ok g2 →
  ∃ g, groupby_max classes (pd_concat df1 df2) = Ok g ∧
    ∀ k vals, (k, vals) ∈ g ↔
      (∃ v1 v2, (k, v1) ∈ g1 ∧ (k, v2) ∈ g2 ∧ vals = zip_with cell_max v1 v2) ∨
      ((k, vals) ∈ g1 ∧ k ∉ map fst g2) ∨
      ((k, vals) ∈ g2 ∧ k ∉ map fst g1).
Proof.
  intros Hg1 Hg2. unfold pd_concat.
  assert (Hg : groupby_max classes (df1 ++ df2) =
    Ok (map (λ k, (k, group_max classes (df1 ++ df2) k)) (group_keys (df1 ++ df2)))).
  { apply groupby_max_Ok. split; [|done].
    apply groupby_max_Ok in Hg1 as [H1 _]. apply groupby_max_Ok in Hg2 as [H2 _].
    apply has_classes_Forall, Forall_app. by rewrite <- !has_classes_Forall. }
  eexists. split; [exact Hg|]. intros k vals.
  rewrite (elem_of_groupby_max _ _ _ _ _ Hg).
  rewrite (groupby_max_keys _ _ _ Hg1), (groupby_max_keys _ _ _ Hg2).
  setoid_rewrite (elem_of_groupby_max _ _ _ _ _ Hg1).
  setoid_rewrite (elem_of_groupby_max _ _ _ _ _ Hg2).
  rewrite group_keys_app, group_max_app.
  destruct (decide (k ∈ group_keys df1)) as [H1|H1],
    (decide (k ∈ group_keys df2)) as [H2|H2].
  - split; [|naive_solver]. intros [_ ->]. left. eauto 10.
  - rewrite (group_max_not_key classes df2 k H2). unfold group_max at 1.
    rewrite zip_with_cell_max_NaN_r. fold (group_max classes df1 k). split.
    + intros [_ ->]. right. left. done.
    + naive_solver.
  - rewrite (group_max_not_key classes df1 k H1). unfold group_max at 1.
    rewrite zip_with_cell_max_NaN_l. fold (group_max classes df2 k). split.
    + intros [_ ->]. right. right. done.
    + naive_solver.
  - naive_solver.
Qed.

(** X10: when no cell of a class column exceeds 1, as for the labels -1, 0,
    1 and blank, a study's aggregate for that class is 1 exactly when one of
    its images has 1 there. *)
Theorem groupby_max_positive (classes : list string) (df : DataFrame)
    (g : list (key * list cell)) (k : key) (vals : list cell) (j : nat) (c : string) :
  groupby_max classes df = Ok g →
  (k, vals) ∈ g →
  classes !! j = Some c →
  (∀ r x, r ∈ df → findings r !! c = Some (Num x) → (x ≤ 1)%Qc) →
  vals !! j = Some (Num 1) ↔
  ∃ r, r ∈ df ∧ study_key r = Some k ∧ findings r !! c = Some (Num 1).
Proof.
  intros Hg [Hk ->]%(elem_of_groupby_max _ _ _ _ _ Hg) Hc Hle.
  rewrite (group_max_lookup classes df k j c Hc).
  pose proof (column_max_is_max (column c (group_rows df k))) as Hmax.
  assert (Hcol : ∀ x, Num x ∈ column c (group_rows df k) ↔
            ∃ r, r ∈ df ∧ study_key r = Some k ∧ findings r !! c = Some (Num x)).
  { intros x. unfold column, group_rows. change (map ?f ?l) with (f <$> l).
    rewrite list_elem_of_fmap. setoid_rewrite list_elem_of_filter. split.
    - intros (r & Hx & Hkey & Hin). exists r. repeat split; [done..|].
      destruct (findings r !! c) as [[|y]|]; simpl in Hx; congruence.
    - intros (r & Hin & Hkey & Hx). exists r. by rewrite Hx. }
  split.
  - intros [= Heq]. rewrite Heq in Hmax. destruct Hmax as [Hin _].
    by apply Hcol.
  - intros Hex. apply Hcol in Hex.
    destruct (column_max (column c (group_rows df k))) as [|m].
    + by specialize (Hmax _ Hex).
    + destruct Hmax as [Hin Hub]. specialize (Hub 1%Qc Hex).
      apply Hcol in Hin as (r & Hr & _ & Hx). specialize (Hle r m Hr Hx).
      do 2 f_equal. by apply Qcle_antisym.
Qed.

End grouped_more.

(** ** Writing scores: shapes, contents, overwriting *)

Section scores.

(** X11: the assignment of the scores succeeds exactly when there is no
    class at all, or every score row has an entry for every class and the
    frame has no row or as many rows as there are score rows; a frame
    without rows takes one row per score row.  With at least one class, a
    frame that has rows and a score matrix with another number of rows, none
    of them empty, it raises [ValueError]; every other failure is an
    [IndexError]. *)
Theorem assign_preds_shape (classes : list string) (preds : list (list Qc))
    (df : DataFrame) :
  ((∃ pdf, assign_preds classes preds df = Ok pdf) ↔
     classes = [] ∨
     ((df = [] ∨ length preds = length df) ∧
      Forall (λ s, length classes ≤ length s) preds)) ∧
  (assign_preds classes preds df = Err ValueError ↔
     classes ≠ [] ∧ Forall (λ s, s ≠ []) preds ∧
     df ≠ [] ∧ length preds ≠ length df) ∧
  (∀ e, assign_preds classes preds df = Err e → e = IndexError ∨ e = ValueError) ∧
  (∀ pdf, classes ≠ [] → assign_preds classes preds df = Ok pdf →
     length pdf = length preds).
Proof.
  split; [|split; [|split]].
  4:{ intros pdf Hne [[-> _]|(_ & Hor & _ & ->)]%assign_preds_Ok_cases; [done|].
      by apply with_scores_length. }
  all: unfold assign_preds.
  all: destruct (assign_preds_from_cases 0 classes preds df)
    as [[-> Hok]|[(Hne & Hor & Hall & Hok)|[(Hne & Hall & Hdf & Hlen & Herr)|
        (Hne & Hex & Hor & Herr)]]]; rewrite ?Hok, ?Herr.
  - split; [by left|by eexists].
  - split; [|by eexists]. intros _. right. done.
  - split; [by intros [pdf Hpdf]|]. intros [->|[[->|Hlen'] _]]; done.
  - split; [by intros [pdf Hpdf]|]. intros [->|[_ Hall]]; [done|].
    apply Exists_exists in Hex as (s & Hs & Hshort).
    rewrite Forall_forall in Hall. specialize (Hall s Hs). simpl in Hshort. lia.
  - split; [done|]. by intros [[] _].
  - split; [done|]. intros (_ & _ & Hdf & Hlen). destruct Hor as [->|Hlen']; done.
  - split; [|done]. intros _. split; [done|]. split; [|done].
    eapply Forall_impl; [exact Hall|]. simpl.
    intros [|v s] Hs; [simpl in Hs; lia|done].
  - split; [done|]. intros (_ & Hall & Hdf & Hlen).
    destruct Hor as [->|[Hlen'|Hex0]]; [done..|].
    apply Exists_exists in Hex0 as (s & Hs & Hshort).
    rewrite Forall_forall in Hall. specialize (Hall s Hs).
    destruct s; [done|simpl in Hshort; lia].
  - done.
  - done.
  - intros e [= <-]. by right.
  - intros e [= <-]. by left.
Qed.

Lemma write_scores_class i classes s r k c :
  NoDup classes → i + length classes ≤ length s → classes !! k = Some c →
  ∃ v, s !! (i + k) = Some v ∧
       findings (write_scores i classes s r) !! c = Some (Num v).
Proof.
  revert i r k. induction classes as [|c0 classes IH]; intros i r k Hnd Hlen Hk;
    [done|].
  apply NoDup_cons in Hnd as [Hc0 Hnd]. cbn [length] in Hlen.
  destruct (lookup_lt_is_Some_2 s i) as [v Hv]; [lia|].
  cbn [write_scores]. rewrite Hv. destruct k as [|k].
  - injection Hk as <-. exists v. rewrite Nat.add_0_r. split; [done|].
    rewrite write_scores_other by done. simpl. apply lookup_insert_eq.
  - cbn [lookup list_lookup] in Hk.
    destruct (IH (S i) (set_finding c0 r v) k Hnd) as (w & Hw & Hf); [lia|done|].
    exists w. split; [|done]. by replace (i + S k) with (S i + k) by lia.
Qed.

Lemma row_eq (r1 r2 : row) :
  Path r1 = Path r2 → train_valid r1 = train_valid r2 →
  patient r1 = patient r2 → study r1 = study r2 →
  findings r1 = findings r2 → r1 = r2.
Proof. destruct r1, r2. simpl. by intros -> -> -> -> ->. Qed.

Lemma write_scores_idemp i classes s r :
  NoDup classes → i + length classes ≤ length s →
  write_scores i classes s (write_scores i classes s r) = write_scores i classes s r.
Proof.
  intros Hnd Hlen.
  destruct (write_scores_fields i classes s (write_scores i classes s r))
    as (HP & Ht & Hp & Hs).
  apply row_eq; [done..|]. apply map_eq. intros f.
  destruct (decide (f ∈ classes)) as [Hf|Hf].
  - apply list_elem_of_lookup in Hf as [k Hk].
    destruct (write_scores_class i classes s (write_scores i classes s r) k f)
      as (v & Hv & ->); [done..|].
    destruct (write_scores_class i classes s r k f) as (v' & Hv' & ->); [done..|].
    congruence.
  - by rewrite write_scores_other.
Qed.

(** X12: after a successful assignment over distinct classes, row [j] of the
    frame has, in the column of the [i]-th class, score [i] of score row
    [j].  A row the frame had keeps its path, split flag, patient, study and
    every other column, and a frame that had rows keeps their number; a
    frame that had none has taken one row per score row, blank in path,
    split flag, patient and study. *)
Theorem assign_preds_lookup (classes : list string) (preds : list (list Qc))
    (df pdf : DataFrame) :
  NoDup classes →
  assign_preds classes preds df = Ok pdf →
  (df ≠ [] → length pdf = length df) ∧
  (classes ≠ [] → length pdf = length preds) ∧
  (∀ j r, df !! j = Some r →
    ∃ r', pdf !! j = Some r' ∧
      Path r' = Path r ∧ train_valid r' = train_valid r ∧
      patient r' = patient r ∧ study r' = study r ∧
      (∀ f, f ∉ classes → findings r' !! f = findings r !! f) ∧
      (∀ i c, classes !! i = Some c →
         ∃ s v, preds !! j = Some s ∧ s !! i = Some v ∧
                findings r' !! c = Some (Num v))) ∧
  (df = [] → ∀ j r', pdf !! j = Some r' →
      Path r' = None ∧ train_valid r' = None ∧
      patient r' = None ∧ study r' = None ∧
      (∀ i c, classes !! i = Some c →
         ∃ s v, preds !! j = Some s ∧ s !! i = Some v ∧
                findings r' !! c = Some (Num v))).
Proof.
  intros Hnd [[-> ->]|(Hne & Hor & Hall & ->)]%assign_preds_Ok_cases.
  - split; [done|]. split; [done|]. split.
    + intros j r Hj. exists r. repeat split; try done.
    + by intros -> j r' Hj.
  - pose proof (with_scores_length 0 classes preds df Hor) as Hlen.
    rewrite Forall_forall in Hall.
    split; [intros Hdf; destruct Hor as [->|Hl]; [done|lia]|].
    split; [done|]. split.
    + intros j r Hj. destruct Hor as [->|Hl]; [done|].
      destruct (lookup_lt_is_Some_2 preds j) as [s Hs];
        [rewrite Hl; by eapply lookup_lt_Some|].
      exists (write_scores 0 classes s r). split.
      { unfold with_scores. rewrite ensure_valid_index_length by done.
        rewrite lookup_zip_with, Hj. simpl. by rewrite Hs. }
      destruct (write_scores_fields 0 classes s r) as (HP & Ht & Hp & Hst).
      do 4 (split; [done|]). split.
      * intros f Hf. by apply write_scores_other.
      * intros i c Hc.
        destruct (write_scores_class 0 classes s r i c Hnd) as (v & Hv & Hf);
          [apply Hall; by eapply list_elem_of_lookup_2|done|].
        by exists s, v.
    + intros -> j r' Hj. unfold with_scores in Hj. cbn [ensure_valid_index] in Hj.
      apply lookup_zip_with_Some in Hj as (r0 & s & -> & Hr0 & Hs).
      apply lookup_replicate in Hr0 as [-> _].
      destruct (write_scores_fields 0 classes s blank_row) as (-> & -> & -> & ->).
      do 4 (split; [done|]). intros i c Hc.
      destruct (write_scores_class 0 classes s blank_row i c Hnd) as (v & Hv & Hf);
        [apply Hall; by eapply list_elem_of_lookup_2|done|].
      by exists s, v.
Qed.

Lemma zip_with_twice (W : list Qc → row → row) (df : DataFrame)
    (preds : list (list Qc)) :
  zip_with (λ r s, W s r) (zip_with (λ r s, W s r) df preds) preds =
  zip_with (λ r s, W s (W s r)) df preds.
Proof.
  revert preds. induction df as [|r df IH]; intros [|s preds]; try done.
  cbn [zip_with]. by rewrite IH.
Qed.

Lemma zip_with_ext_Forall (W V : list Qc → row → row) (P : list Qc → Prop)
    (df : DataFrame) (preds : list (list Qc)) :
  Forall P preds → (∀ s r, P s → W s r = V s r) →
  zip_with (λ r s, W s r) df preds = zip_with (λ r s, V s r) df preds.
Proof.
  intros Hall Hext. revert df.
  induction Hall as [|s preds Hs _ IH]; intros [|r df]; try done.
  cbn [zip_with]. by rewrite IH, Hext.
Qed.

(** Assigning the same scores a second time changes nothing. *)
Lemma assign_preds_idemp classes preds df pdf :
  NoDup classes → assign_preds classes preds df = Ok pdf →
  assign_preds classes preds pdf = Ok pdf.
Proof.
  intros Hnd [[-> ->]|(Hne & Hor & Hall & ->)]%assign_preds_Ok_cases; [done|].
  pose proof (with_scores_length 0 classes preds df Hor) as Hlen.
  unfold assign_preds.
  destruct (assign_preds_from_cases 0 classes preds (with_scores 0 classes preds df))
    as [[-> _]|[(_ & _ & _ & Hok')|[(_ & _ & _ & Hlen' & _)|(_ & Hex & _ & _)]]].
  - done.
  - rewrite Hok'. f_equal. unfold with_scores at 1.
    rewrite ensure_valid_index_length by done. unfold with_scores.
    rewrite zip_with_twice.
    apply (zip_with_ext_Forall _ _ (λ s, 0 + length classes ≤ length s));
      [exact Hall|]. intros s r Hs. by apply write_scores_idemp.
  - by destruct Hlen'.
  - apply Exists_exists in Hex as (s & Hs & Hshort).
    rewrite Forall_forall in Hall. specialize (Hall s Hs). simpl in *. lia.
Qed.

(** X13: [get_preds_per_study] leaves the scores in the class columns of
    [full_valid_df].  On the frame it leaves behind, with distinct classes,
    writing the scores again changes nothing and the aggregated ground
    truth is the table it returned, so a later [validation_eval] scores the
    predictions against themselves. *)
Theorem get_preds_per_study_overwrites (classes : list string)
    (full_valid_df df' per_study : DataFrame) (preds : list (list Qc)) :
  NoDup classes →
  get_preds_per_study classes full_valid_df preds = Ok (per_study, df') →
  assign_preds classes preds df' = Ok df' ∧
  ∃ g, groupby_max classes df' = Ok g ∧
    per_study = reset_index classes g ∧
    validation_eval classes df' preds =
      (let* auc_scores :=
         auc_scores_from classes (values g) (values g)
           (seq 0 (length chexpert_targets)) ∅ in
       let* lines := report_lines auc_scores chexpert_targets in
       Ok {| auc_scores := auc_scores; avg_auc := dict_average auc_scores;
             avg_chexpert_auc := dict_average chexpert_auc_scores;
             lines := lines |}).
Proof.
  intros Hnd. unfold get_preds_per_study.
  destruct (assign_preds classes preds full_valid_df) as [pdf|] eqn:Hpdf; [|done].
  cbn [rbind]. destruct (groupby_max classes pdf) as [g|] eqn:Hg; [|done].
  cbn [rbind]. intros [= <- <-].
  pose proof (assign_preds_idemp classes preds full_valid_df pdf Hnd Hpdf) as Hid.
  split; [done|]. exists g. split; [done|]. split; [done|].
  unfold validation_eval. rewrite Hg. cbn [rbind]. rewrite Hid. cbn [rbind].
  by rewrite Hg.
Qed.

End scores.

(** ** The evaluation as a whole *)

Section evaluation.

(** The stages a successful evaluation went through. *)
Lemma validation_eval_Ok_inv classes df preds rep :
  validation_eval classes df preds = Ok rep →
  ∃ ga pdf gp d ls,
    groupby_max classes df = Ok ga ∧
    assign_preds classes preds df = Ok pdf ∧
    groupby_max classes pdf = Ok gp ∧
    auc_scores_from classes (values ga) (values gp)
      (seq 0 (length chexpert_targets)) ∅ = Ok d ∧
    report_lines d chexpert_targets = Ok ls ∧
    rep = {| auc_scores := d; avg_auc := dict_average d;
             avg_chexpert_auc := dict_average chexpert_auc_scores; lines := ls |}.
Proof.
  unfold validation_eval.
  destruct (groupby_max classes df) as [ga|] eqn:Hga; [|done]. cbn [rbind].
  destruct (assign_preds classes preds df) as [pdf|] eqn:Hpdf; [|done]. cbn [rbind].
  destruct (groupby_max classes pdf) as [gp|] eqn:Hgp; [|done]. cbn [rbind].
  destruct (auc_scores_from _ _ _ _ _) as [d|] eqn:Hd; [|done]. cbn [rbind].
  destruct (report_lines d chexpert_targets) as [ls|] eqn:Hls; [|done]. cbn [rbind].
  intros [= <-]. by exists ga, pdf, gp, d, ls.
Qed.

Lemma auc_scores_from_keys classes acts preds indices scores d :
  auc_scores_from classes acts preds indices scores = Ok d →
  (∀ j, j ∈ indices → is_Some (classes !! j)) ∧
  (∀ k, is_Some (d !! k) ↔
        is_Some (scores !! k) ∨ ∃ j, j ∈ indices ∧ classes !! j = Some k).
Proof.
  revert scores. induction indices as [|i indices IH]; intros scores.
  - intros [= <-]. split.
    + intros j Hj. by apply elem_of_nil in Hj.
    + intros k. split; [by left|]. intros [?|(j & Hj & _)]; [done|].
      by apply elem_of_nil in Hj.
  - cbn [auc_scores_from]. destruct (classes !! i) as [c|] eqn:Hc; [|done].
    destruct (matrix_column acts i) as [y_true|]; [|done]. cbn [rbind].
    destruct (matrix_column preds i) as [y_score|]; [|done]. cbn [rbind].
    destruct (roc_auc_score y_true y_score) as [auc|]; [|done]. cbn [rbind].
    intros [Hidx Hkeys]%IH. split.
    + intros j [->|Hj]%elem_of_cons; [by eexists|by apply Hidx].
    + intros k. rewrite Hkeys. split.
      * intros [Hk|(j & Hj & Hjk)].
        -- destruct (decide (c = k)) as [<-|Hne].
           ++ right. exists i. split; [by left|done].
           ++ left. by rewrite lookup_insert_ne in Hk.
        -- right. exists j. split; [by right|done].
      * intros [Hk|(j & [->|Hj]%elem_of_cons & Hjk)].
        -- left. destruct (decide (c = k)) as [<-|Hne].
           ++ rewrite lookup_insert_eq. by eexists.
           ++ by rewrite lookup_insert_ne.
        -- left. assert (c = k) as <- by congruence.
           rewrite lookup_insert_eq. by eexists.
        -- right. by exists j.
Qed.

Lemma report_lines_inv (d : gmap string Qc) (targets : list string) ls :
  report_lines d targets = Ok ls →
  (∀ k, k ∈ targets → is_Some (d !! k)) ∧
  Forall2 (λ k l, ∃ auc paper,
             d !! k = Some auc ∧ chexpert_auc_scores !! k = Some paper ∧
             l = (k, auc, paper, (paper - auc)%Qc)) targets ls.
Proof.
  revert ls. induction targets as [|k targets IH]; intros ls.
  - intros [= <-]. split; [|constructor]. intros k Hk. by apply elem_of_nil in Hk.
  - cbn [report_lines]. destruct (d !! k) as [auc|] eqn:Hk; [|done].
    destruct (chexpert_auc_scores !! k) as [paper|] eqn:Hp; [|done].
    destruct (report_lines d targets) as [ls'|]; [|done]. cbn [rbind].
    intros [= <-]. destruct (IH ls' eq_refl) as [Hall Hls]. split.
    + intros k' [->|Hk']%elem_of_cons; [by eexists|by apply Hall].
    + constructor; [|done]. by exists auc, paper.
Qed.

Lemma chexpert_targets_NoDup : NoDup chexpert_targets.
Proof. apply (bool_decide_unpack _). vm_compute. exact I. Qed.

Lemma auc_scores_keys_targets classes acts preds d ls :
  auc_scores_from classes acts preds (seq 0 (length chexpert_targets)) ∅ = Ok d →
  report_lines d chexpert_targets = Ok ls →
  take (length chexpert_targets) classes ≡ₚ chexpert_targets ∧
  ∀ k, is_Some (d !! k) ↔ k ∈ chexpert_targets.
Proof.
  intros Hd Hls.
  apply auc_scores_from_keys in Hd as [Hidx Hkeys].
  apply report_lines_inv in Hls as [Htargets _].
  assert (Hlen : length chexpert_targets ≤ length classes).
  { destruct (Hidx 4) as [c Hc]; [apply elem_of_seq; simpl; lia|].
    apply lookup_lt_Some in Hc. simpl. lia. }
  assert (Hsub : ∀ k, k ∈ chexpert_targets →
            k ∈ take (length chexpert_targets) classes).
  { intros k Hk. apply Htargets, Hkeys in Hk as [[v Hv]|(j & Hj%elem_of_seq & Hjk)].
    - by rewrite lookup_empty in Hv.
    - apply list_elem_of_lookup. exists j. apply lookup_take_Some. split; [done|lia]. }
  assert (Hperm : take (length chexpert_targets) classes ≡ₚ chexpert_targets).
  { symmetry. apply submseteq_length_Permutation.
    - apply NoDup_submseteq; [apply chexpert_targets_NoDup|done].
    - rewrite length_take. lia. }
  split; [done|]. intros k. rewrite Hkeys, <- Hperm. split.
  - intros [[v Hv]|(j & Hj%elem_of_seq & Hjk)]; [by rewrite lookup_empty in Hv|].
    apply list_elem_of_lookup. exists j. apply lookup_take_Some. split; [done|lia].
  - intros [j [Hj Hlt]%lookup_take_Some]%list_elem_of_lookup. right.
    exists j. split; [apply elem_of_seq; lia|done].
Qed.

(** X14: an evaluation only succeeds when the first five classes of the
    learner are the five CheXpert targets, in some order; the dictionary of
    scores then has exactly those five names as keys. *)
Theorem validation_eval_Ok_classes (classes : list string) (df : DataFrame)
    (preds : list (list Qc)) (rep : report) :
  validation_eval classes df preds = Ok rep →
  take (length chexpert_targets) classes ≡ₚ chexpert_targets ∧
  ∀ k, is_Some (auc_scores rep !! k) ↔ k ∈ chexpert_targets.
Proof.
  intros (ga & pdf & gp & d & ls & _ & _ & _ & Hd & Hls & ->)%validation_eval_Ok_inv.
  cbn [auc_scores]. by eapply auc_scores_keys_targets.
Qed.

(** X15: input errors come first and in a fixed order.  A frame in which a
    row lacks a class column makes the evaluation raise [KeyError] whatever
    the scores are.  Otherwise a frame that has rows and a score matrix with
    another number of rows, none of them empty, make it raise [ValueError];
    and a score row with fewer entries than there are classes makes it raise
    [IndexError], when the frame has no row or one row per score row, or some
    score row is empty.  No score is computed in these cases. *)
Theorem validation_eval_input_errors (classes : list string) (df : DataFrame)
    (preds : list (list Qc)) :
  (¬ Forall (has_columns classes) df →
     validation_eval classes df preds = Err KeyError) ∧
  (Forall (has_columns classes) df → classes ≠ [] →
     Forall (λ s, s ≠ []) preds → df ≠ [] → length preds ≠ length df →
     validation_eval classes df preds = Err ValueError) ∧
  (Forall (has_columns classes) df →
     Exists (λ s, length s < length classes) preds →
     df = [] ∨ length preds = length df ∨ Exists (λ s, s = []) preds →
     validation_eval classes df preds = Err IndexError).
Proof.
  unfold validation_eval, groupby_max. split; [|split].
  - intros Hno. rewrite <- has_classes_Forall in Hno.
    by destruct (has_classes classes df).
  - intros Hcols%has_classes_Forall Hne Hall Hdf Hlen.
    apply Is_true_true in Hcols. rewrite Hcols. cbn [rbind].
    unfold assign_preds.
    destruct (assign_preds_from_cases 0 classes preds df)
      as [[-> _]|[(_ & Hor & _)|[(_ & _ & _ & _ & ->)|(_ & _ & Hor & _)]]];
      [done| |done|].
    + destruct Hor; done.
    + destruct Hor as [?|[?|Hex]]; [done..|].
      apply Exists_exists in Hex as (s & Hs & Hshort).
      rewrite Forall_forall in Hall. specialize (Hall s Hs).
      destruct s; [done|simpl in Hshort; lia].
  - intros Hcols%has_classes_Forall Hex Hor.
    apply Is_true_true in Hcols. rewrite Hcols. cbn [rbind].
    unfold assign_preds. apply Exists_exists in Hex as (s & Hs & Hshort).
    destruct (assign_preds_from_cases 0 classes preds df)
      as [[-> _]|[(_ & _ & Hall & _)|[(_ & Hall & Hdf & Hlen & _)|(_ & _ & _ & ->)]]];
      [| | |done].
    + simpl in Hshort. lia.
    + rewrite Forall_forall in Hall. specialize (Hall s Hs). simpl in *. lia.
    + destruct Hor as [?|[?|Hex]]; [done..|].
      apply Exists_exists in Hex as (s' & Hs' & ->).
      rewrite Forall_forall in Hall. specialize (Hall _ Hs'). simpl in Hall. lia.
Qed.

End evaluation.

Section evaluation_order.

Lemma assign_preds_Permutation classes (df df' : DataFrame)
    (preds preds' : list (list Qc)) :
  length preds = length df → length preds' = length df' →
  zip df preds ≡ₚ zip df' preds' →
  (∃ pdf pdf', assign_preds classes preds df = Ok pdf ∧
               assign_preds classes preds' df' = Ok pdf' ∧ pdf ≡ₚ pdf') ∨
  (∃ e, assign_preds classes preds df = Err e ∧
        assign_preds classes preds' df' = Err e).
Proof.
  intros Hlen Hlen' Hzip.
  assert (Hdf : df ≡ₚ df').
  { rewrite <- (fst_zip df preds), <- (fst_zip df' preds') by lia. by rewrite Hzip. }
  assert (Hpreds : preds ≡ₚ preds').
  { rewrite <- (snd_zip df preds), <- (snd_zip df' preds') by lia. by rewrite Hzip. }
  unfold assign_preds.
  destruct (assign_preds_from_cases 0 classes preds df)
    as [[-> Hok]|[(Hne & _ & Hall & Hok)|[(_ & _ & _ & Hbad & _)|(Hne & Hex & _ & Herr)]]];
    [| |done|].
  - left. exists df, df'. done.
  - destruct (assign_preds_from_cases 0 classes preds' df')
      as [[-> _]|[(_ & _ & _ & Hok')|[(_ & _ & _ & Hbad & _)|(_ & Hex & _ & _)]]];
      [done| |done|].
    + left. eexists _, _. split; [exact Hok|]. split; [exact Hok'|].
      unfold with_scores. rewrite !ensure_valid_index_length by done.
      rewrite (zip_with_zip _ df preds), (zip_with_zip _ df' preds').
      by rewrite Hzip.
    + rewrite <- Hpreds in Hex. apply Exists_exists in Hex as (s & Hs & Hshort).
      rewrite Forall_forall in Hall. specialize (Hall s Hs). simpl in *. lia.
  - destruct (assign_preds_from_cases 0 classes preds' df')
      as [[-> _]|[(_ & _ & Hall & _)|[(_ & _ & _ & Hbad & _)|(_ & _ & _ & Herr')]]];
      [done| |done|].
    + rewrite <- Hpreds in Hall. apply Exists_exists in Hex as (s & Hs & Hshort).
      rewrite Forall_forall in Hall. specialize (Hall s Hs). simpl in *. lia.
    + right. exists IndexError. done.
Qed.

(** X16: the evaluation does not depend on the order of the images: for a
    frame and a score matrix with one score row per image, reordering the
    images together with their score rows gives the same report or the same
    error. *)
Theorem validation_eval_Permutation (classes : list string) (df df' : DataFrame)
    (preds preds' : list (list Qc)) :
  length preds = length df →
  length preds' = length df' →
  zip df preds ≡ₚ zip df' preds' →
  validation_eval classes df preds = validation_eval classes df' preds'.
Proof.
  intros Hlen Hlen' Hzip.
  assert (Hdf : df ≡ₚ df').
  { rewrite <- (fst_zip df preds), <- (fst_zip df' preds') by lia. by rewrite Hzip. }
  unfold validation_eval. rewrite (groupby_max_Permutation classes df df' Hdf).
  destruct (groupby_max classes df') as [ga|]; [|done]. cbn [rbind].
  destruct (assign_preds_Permutation classes df df' preds preds' Hlen Hlen' Hzip)
    as [(pdf & pdf' & -> & -> & Hp)|(e & -> & ->)]; [|done].
  cbn [rbind]. by rewrite (groupby_max_Permutation classes pdf pdf' Hp).
Qed.

End evaluation_order.

(** ** The patient sample *)

Section sample.

Lemma elem_of_unique {A} `{EqDecision A} (l : list A) x : x ∈ unique l ↔ x ∈ l.
Proof.
  induction l as [|y l IH]; [done|]. cbn [unique].
  rewrite !elem_of_cons, list_elem_of_filter, IH.
  destruct (decide (x = y)); naive_solver.
Qed.

Lemma NoDup_unique {A} `{EqDecision A} (l : list A) : NoDup (unique l).
Proof.
  induction l as [|y l IH]; [constructor|]. cbn [unique]. constructor.
  - rewrite list_elem_of_filter. by intros [? _].
  - by apply NoDup_filter.
Qed.

Lemma filter_all {A} (P : A → Prop) `{∀ x, Decision (P x)} (l : list A) :
  Forall P l → filter P l = l.
Proof.
  induction 1 as [|x l Hx _ IH]; [done|]. by rewrite filter_cons_True, IH.
Qed.

Lemma filter_ext_elem_of {A} (P Q : A → Prop) `{∀ x, Decision (P x)}
    `{∀ x, Decision (Q x)} (l : list A) :
  (∀ x, x ∈ l → P x ↔ Q x) → filter P l = filter Q l.
Proof.
  induction l as [|x l IH]; intros Hext; [done|].
  rewrite !filter_cons. rewrite IH by (intros y Hy; apply Hext; by right).
  destruct (decide (P x)) as [HP|HP], (decide (Q x)) as [HQ|HQ]; try done.
  - destruct HQ. apply Hext; [by left|done].
  - destruct HP. apply Hext; [by left|done].
Qed.

Lemma map_fst_filter_zip {A} (f : A → bool) (l : list A) :
  map fst (filter (λ xm : A * bool, xm.2) (zip l (map f l))) = filter (λ x, f x) l.
Proof.
  induction l as [|x l IH]; [done|]. cbn [map zip zip_with].
  rewrite !filter_cons. cbn [snd]. destruct (f x); simpl; by rewrite IH.
Qed.

Lemma elem_of_masked {A} (l : list A) (g : nat → bool) x :
  x ∈ map fst (filter (λ xm : A * bool, xm.2) (zip l (map g (seq 0 (length l))))) ↔
  ∃ i, l !! i = Some x ∧ g i.
Proof.
  change (map fst ?k) with (fst <$> k). rewrite list_elem_of_fmap. split.
  - intros ([y m] & -> & [Hm Hin]%list_elem_of_filter). cbn [fst snd] in *.
    apply list_elem_of_lookup in Hin as [i Hi].
    apply lookup_zip_with_Some in Hi as (y' & m' & [= <- <-] & Hy & Hmi).
    exists i. split; [done|].
    change (map g ?k) with (g <$> k) in Hmi.
    rewrite list_lookup_fmap in Hmi.
    destruct (seq 0 (length l) !! i) as [i'|] eqn:Hseq; [|done].
    apply lookup_seq in Hseq as [-> _]. simpl in Hmi. by injection Hmi as ->.
  - intros (i & Hi & Hg). exists (x, g i). split; [done|].
    apply list_elem_of_filter. split; [done|].
    apply list_elem_of_lookup. exists i. apply lookup_zip_with_Some.
    exists x, (g i). split; [done|]. split; [done|].
    change (map g ?k) with (g <$> k). rewrite list_lookup_fmap.
    rewrite lookup_seq_lt; [done|]. by eapply lookup_lt_Some.
Qed.

(** *** The position of a patient among the distinct patients *)

Lemma unique_app {A} `{EqDecision A} (l1 l2 : list A) :
  unique (l1 ++ l2) = unique l1 ++ filter (λ y, y ∉ l1) (unique l2).
Proof.
  induction l1 as [|x l1 IH].
  - simpl. symmetry. apply filter_all, Forall_forall. intros y _. apply not_elem_of_nil.
  - cbn [app unique]. rewrite IH, filter_app. f_equal. f_equal.
    rewrite list_filter_filter. apply list_filter_iff.
    intros y. rewrite not_elem_of_cons. tauto.
Qed.

Lemma before_first_split {A} `{EqDecision A} (p : A) (col : list A) :
  p ∈ col →
  (p ∉ before_first p col) ∧ ∃ rest, col = before_first p col ++ p :: rest.
Proof.
  induction col as [|x col IH]; intros Hp; [by apply elem_of_nil in Hp|].
  cbn [before_first]. destruct (decide (x = p)) as [->|Hne].
  - split; [apply not_elem_of_nil|]. by exists col.
  - apply elem_of_cons in Hp as [->|Hp]; [done|].
    destruct (IH Hp) as [Hnot [rest Hrest]]. split.
    + apply not_elem_of_cons. split; [by intros ->|done].
    + exists rest. cbn [app]. by rewrite <- Hrest.
Qed.

Lemma length_unique {A} `{EqDecision A} (l : list A) :
  length (unique l) = length (remove_dups l).
Proof.
  apply Permutation_length, NoDup_Permutation;
    [apply NoDup_unique|apply NoDup_remove_dups|].
  intros x. by rewrite elem_of_unique, elem_of_remove_dups.
Qed.

(** The entry of [unique] at the position [patients_before] counts is the
    patient itself. *)
Lemma unique_lookup_patients_before (p : option string) (col : list (option string)) :
  p ∈ col → unique col !! patients_before p col = Some p.
Proof.
  intros Hp. destruct (before_first_split p col Hp) as [Hnot [rest Hrest]].
  unfold patients_before. rewrite <- length_unique.
  set (pre := before_first p col) in *. rewrite Hrest, unique_app. cbn [unique].
  rewrite filter_cons_True by done.
  by rewrite lookup_app_r, Nat.sub_diag by lia.
Qed.

Lemma patients_before_lookup (p : option string) (col : list (option string)) i :
  unique col !! i = Some p → i = patients_before p col.
Proof.
  intros Hi.
  apply (NoDup_lookup (unique col) i (patients_before p col) p);
    [apply NoDup_unique|exact Hi|].
  apply unique_lookup_patients_before, (elem_of_unique col).
  by eapply list_elem_of_lookup_2.
Qed.

(** *** Frames with their index *)

Lemma range_index_fst df : map fst (range_index df) = seq 0 (length df).
Proof. unfold range_index. apply fst_zip. by rewrite length_seq. Qed.

Lemma range_index_snd df : map snd (range_index df) = df.
Proof. unfold range_index. apply snd_zip. by rewrite length_seq. Qed.

Lemma range_index_map {B} (f : row → B) df :
  map (λ ir : nat * row, f ir.2) (range_index df) = map f df.
Proof. rewrite <- (range_index_snd df) at 2. by rewrite map_map. Qed.

Lemma range_index_Forall (P : row → Prop) df :
  Forall P df → Forall (λ ir : nat * row, P ir.2) (range_index df).
Proof.
  rewrite !Forall_forall. intros Hall [i r] Hin. apply Hall.
  unfold range_index in Hin. by apply elem_of_zip_r in Hin.
Qed.

Lemma range_index_lookup df extra i r :
  df !! i = Some r → range_index (df ++ extra) !! i = Some (i, r).
Proof.
  intros Hi. unfold range_index. apply lookup_zip_with_Some. exists i, r.
  split; [done|]. split.
  - apply lookup_seq. split; [done|]. rewrite length_app.
    apply lookup_lt_Some in Hi. lia.
  - by apply lookup_app_l_Some.
Qed.

(** The mask computed on a frame that begins with the rows of the frame it
    is applied to: each row gets the entry of its own label. *)
Lemma check_bool_indexer_prefix (f : row → bool) (df extra : DataFrame) :
  check_bool_indexer (map fst (range_index df))
    (map (λ ir : nat * row, (ir.1, f ir.2)) (range_index (df ++ extra))) =
  Ok (map f df).
Proof.
  unfold check_bool_indexer. rewrite !map_map. cbn [fst snd].
  change (map (λ x : nat * row, x.1) ?l) with (map fst l).
  rewrite !range_index_fst.
  destruct (decide (seq 0 (length (df ++ extra)) = seq 0 (length df))) as [Heq|Hne].
  - apply (f_equal length) in Heq. rewrite !length_seq, length_app in Heq.
    assert (extra = []) as -> by (apply length_zero_iff_nil; lia).
    rewrite app_nil_r. by rewrite range_index_map.
  - rewrite decide_True by apply NoDup_seq.
    assert (Hm : mapM (λ l, (list_to_map
                   (map (λ ir : nat * row, (ir.1, f ir.2)) (range_index (df ++ extra)))
                   : gmap nat bool) !! l) (seq 0 (length df)) = Some (map f df)).
    { apply mapM_Some, Forall2_same_length_lookup. split.
      - by rewrite length_seq, length_map.
      - intros i l b Hl Hb. apply lookup_seq in Hl as [-> _].
        change (map f df) with (f <$> df) in Hb. rewrite list_lookup_fmap in Hb.
        destruct (df !! i) as [r|] eqn:Hr; [|done]. injection Hb as <-.
        apply elem_of_list_to_map_1.
        + rewrite <- list_fmap_compose.
          change (fst ∘ (λ ir : nat * row, (ir.1, f ir.2))) with (@fst nat row).
          change (fst <$> ?l) with (map fst l). rewrite range_index_fst.
          apply NoDup_seq.
        + change (map ?g ?l) with (g <$> l). apply list_elem_of_fmap.
          exists (i, r). split; [done|].
          eapply list_elem_of_lookup_2. by apply range_index_lookup. }
    by rewrite Hm.
Qed.

(** X18: on the frames the notebook builds (training rows flagged [False],
    validation rows flagged [True], each frame indexed as [read_csv] left it,
    [full_df] their concatenation) the sample is made of training rows with
    their labels, in their order, followed by all the validation rows.  A
    training row is kept exactly when the draw at the position of its
    patient among the distinct patients, counted in order of first
    appearance, is below [sample_perc]: distinct patients are decided by
    distinct draws, and the rows of one patient are all kept or all left
    out.  Rows that [full_train_df] has beyond those of [full_df] change
    nothing. *)
Theorem get_sample_df_by_patient (draws : nat → Qc) (sample_perc : Qc)
    (full_train_df full_valid_df extra : DataFrame) :
  Forall (λ r, train_valid r = Some false) full_train_df →
  Forall (λ r, train_valid r = Some true) full_valid_df →
  Forall (λ r, is_Some (patient r)) full_train_df →
  get_sample_df draws sample_perc
    (pd_concat (range_index full_train_df) (range_index full_valid_df))
    (range_index (full_train_df ++ extra)) =
  Ok (pd_concat
        (filter (λ ir : nat * row,
                   drawn draws sample_perc (map patient full_train_df) (patient ir.2))
           (range_index full_train_df))
        (range_index full_valid_df)) ∧
  (∀ r1 r2, r1 ∈ full_train_df → r2 ∈ full_train_df →
     patients_before (patient r1) (map patient full_train_df) =
     patients_before (patient r2) (map patient full_train_df) →
     patient r1 = patient r2) ∧
  (∀ r1 r2, patient r1 = patient r2 →
     drawn draws sample_perc (map patient full_train_df) (patient r1) ↔
     drawn draws sample_perc (map patient full_train_df) (patient r2)).
Proof.
  intros Htrain Hvalid _. split; [|split].
  2:{ intros r1 r2 H1 H2 Heq.
      assert (Hin : ∀ r, r ∈ full_train_df → patient r ∈ map patient full_train_df).
      { intros r Hr. change (map ?g ?l) with (g <$> l).
        apply list_elem_of_fmap. by exists r. }
      pose proof (unique_lookup_patients_before _ _ (Hin r1 H1)) as L1.
      pose proof (unique_lookup_patients_before _ _ (Hin r2 H2)) as L2.
      rewrite Heq in L1. congruence. }
  2:{ by intros r1 r2 ->. }
  unfold get_sample_df, pd_concat.
  rewrite bool_decide_eq_true_2.
  2:{ apply Forall_app.
      split; apply (range_index_Forall (λ r, is_Some (train_valid r)));
        (eapply Forall_impl; [eassumption|]); simpl; intros r ->; by eexists. }
  assert (Ht : filter (λ ir : nat * row, train_valid ir.2 = Some false)
                 (range_index full_train_df ++ range_index full_valid_df)
               = range_index full_train_df).
  { rewrite filter_app, filter_all, filter_none.
    - apply app_nil_r.
    - apply range_index_Forall in Hvalid. rewrite Forall_forall in Hvalid.
      intros ir Hir%Hvalid. simpl in Hir. congruence.
    - by apply range_index_Forall in Htrain. }
  assert (Hv : filter (λ ir : nat * row, train_valid ir.2 = Some true)
                 (range_index full_train_df ++ range_index full_valid_df)
               = range_index full_valid_df).
  { rewrite filter_app, (filter_all _ (range_index full_valid_df)), filter_none.
    - done.
    - apply range_index_Forall in Htrain. rewrite Forall_forall in Htrain.
      intros ir Hir%Htrain. simpl in Hir. congruence.
    - by apply range_index_Forall in Hvalid. }
  cbv zeta. rewrite Ht, Hv, range_index_map.
  set (col := map patient full_train_df).
  set (sample_patients := map fst (filter _ (zip (unique col) _))).
  pose proof (check_bool_indexer_prefix
                (λ r, bool_decide (patient r ∈ sample_patients))
                full_train_df extra) as Hkeep.
  cbv beta in Hkeep. rewrite Hkeep. clear Hkeep.
  cbn [rbind]. f_equal. f_equal.
  pose proof (range_index_map
                (λ r, bool_decide (patient r ∈ sample_patients)) full_train_df)
    as Hmask.
  cbv beta in Hmask. rewrite <- Hmask. clear Hmask.
  rewrite (map_fst_filter_zip
             (λ ir : nat * row, bool_decide (patient ir.2 ∈ sample_patients))).
  assert (Hsp : ∀ p, p ∈ sample_patients ↔
            ∃ i, unique col !! i = Some p ∧ (draws i < sample_perc)%Qc).
  { intros p. unfold sample_patients.
    rewrite (elem_of_masked _ (λ i, bool_decide (draws i < sample_perc)%Qc)).
    by setoid_rewrite bool_decide_spec. }
  apply filter_ext_elem_of. intros [i r] Hin. cbn [snd].
  rewrite bool_decide_spec, Hsp. unfold drawn.
  assert (Hp : patient r ∈ col).
  { unfold col. change (map ?g ?l) with (g <$> l). apply list_elem_of_fmap.
    exists r. split; [done|]. unfold range_index in Hin.
    by apply elem_of_zip_r in Hin. }
  split.
  - intros (j & Hj & Hd). by rewrite <- (patients_before_lookup _ _ _ Hj).
  - intros Hd. exists (patients_before (patient r) col). split; [|done].
    by apply unique_lookup_patients_before.
Qed.

End sample.

(** ** Switching the callbacks off and on *)

Section callbacks.

Context {A : Type} `{EqDecision A}.

Lemma filter_not_in_idemp (cbfs l : list A) :
  filter (λ cbf, cbf ∉ cbfs) (filter (λ cbf, cbf ∉ cbfs) l ++ cbfs) =
  filter (λ cbf, cbf ∉ cbfs) l.
Proof.
  rewrite filter_app, (filter_none (λ cbf, cbf ∉ cbfs) cbfs) by (intros x Hx Hn; done).
  rewrite app_nil_r. apply filter_all, Forall_forall.
  by intros x [Hx _]%list_elem_of_filter.
Qed.

(** X19: while the learning-rate finder runs none of the callbacks of
    [cbfs] is installed and the other callbacks keep their order; afterwards
    the callbacks of [cbfs] are back, at the end of the list.  Running it
    again leaves the list as it is, so callbacks never pile up, and when the
    list held each callback of [cbfs] once, it holds the same callbacks as
    before. *)
Theorem lr_finder_callbacks (cbfs callback_fns : list A) :
  (∀ cbf, cbf ∈ (lr_finder cbfs callback_fns).1 ↔
          cbf ∈ callback_fns ∧ cbf ∉ cbfs) ∧
  sublist (lr_finder cbfs callback_fns).1 callback_fns ∧
  (lr_finder cbfs callback_fns).2 = (lr_finder cbfs callback_fns).1 ++ cbfs ∧
  lr_finder cbfs (lr_finder cbfs callback_fns).2 = lr_finder cbfs callback_fns ∧
  (NoDup callback_fns → NoDup cbfs → NoDup (lr_finder cbfs callback_fns).2) ∧
  (NoDup callback_fns → NoDup cbfs → (∀ cbf, cbf ∈ cbfs → cbf ∈ callback_fns) →
     (lr_finder cbfs callback_fns).2 ≡ₚ callback_fns).
Proof.
  unfold lr_finder. cbn [fst snd]. split; [|split; [|split; [|split; [|split]]]].
  - intros cbf. rewrite list_elem_of_filter. tauto.
  - apply sublist_filter.
  - done.
  - by rewrite filter_not_in_idemp.
  - intros Hfns Hcbfs. apply NoDup_app. split; [by apply NoDup_filter|].
    split; [|done]. by intros x [Hx _]%list_elem_of_filter.
  - intros Hfns Hcbfs Hsub.
    rewrite <- (filter_app_complement (λ cbf, cbf ∉ cbfs) callback_fns) at 2.
    apply Permutation_app_head. apply NoDup_Permutation; [done|by apply NoDup_filter|].
    intros x. rewrite list_elem_of_filter. split.
    + intros Hx. split; [by intros Hn|by apply Hsub].
    + intros [Hx _]. by destruct (decide (x ∈ cbfs)).
Qed.

End callbacks.

(** ** The further properties on the sample tables *)

Lemma feature_string_injective_witness :
  ["Atelectasis"; "Cardiomegaly"] = ["Atelectasis"; "Cardiomegaly"].
Proof.
  apply (feature_string_injective row_uncertain row_uncertain_other).
  - vm_compute. reflexivity.
  - vm_compute. reflexivity.
  - vm_compute. reflexivity.
Defined.

Lemma add_patient_study_chexpert_layout_witness :
  ∃ df', add_patient_study df_layout = Ok df' ∧
    length df' = length df_layout ∧
    ∀ i r root split p s file,
      df_layout !! i = Some r →
      Path r = Some (chexpert_path root split p s file) →
      separators root = 0 → separators split = 0 →
      separators p = 0 → separators s = 0 →
      ∃ r', df' !! i = Some r' ∧ patient r' = Some p ∧ study r' = Some s.
Proof.
  apply (add_patient_study_chexpert_layout df_layout).
  - discriminate.
  - intros r Hr. apply list_elem_of_In in Hr. simpl in Hr.
    destruct Hr as [<-|[<-|[]]].
    + exists "CheXpert-v1.0-small", "train", "patient00001", "study1",
        "view1_frontal.jpg". repeat split; reflexivity.
    + exists "CheXpert-v1.0-small", "valid", "patient64541", "study2",
        "view2_lateral.jpg". repeat split; reflexivity.
Defined.

Lemma add_patient_study_preserves_witness :
  length (map with_identifiers df_paths) = length df_paths ∧
  map Path (map with_identifiers df_paths) = map Path df_paths ∧
  map train_valid (map with_identifiers df_paths) = map train_valid df_paths ∧
  map findings (map with_identifiers df_paths) = map findings df_paths ∧
  feature_string_column (map with_identifiers df_paths) =
    feature_string_column df_paths.
Proof.
  apply (add_patient_study_preserves df_paths). vm_compute. reflexivity.
Defined.

Lemma groupby_max_drops_blank_keys_witness :
  groupby_max chexpert_targets (valid_df ++ [row_uncertain]) = Ok valid_grouped ∧
  groupby_max chexpert_targets (filter identified (valid_df ++ [row_uncertain])) =
    Ok valid_grouped.
Proof.
  destruct (groupby_max_drops_blank_keys chexpert_targets (valid_df ++ [row_uncertain]))
    as (g & Hg & Hgf & _).
  { apply has_classes_Forall. vm_compute. exact I. }
  assert (Hv : groupby_max chexpert_targets (valid_df ++ [row_uncertain]) =
               Ok valid_grouped) by (vm_compute; reflexivity).
  rewrite Hv in Hg. injection Hg as <-. split; [exact Hv|exact Hgf].
Defined.

Lemma groupby_max_sorted_witness :
  Sorted key_le (map fst valid_grouped) ∧
  NoDup (map fst valid_grouped) ∧
  Forall (λ kv, length kv.2 = length chexpert_targets) valid_grouped ∧
  length valid_grouped ≤ length valid_df.
Proof.
  apply (groupby_max_sorted chexpert_targets valid_df). vm_compute. reflexivity.
Defined.

Lemma groupby_max_concat_witness :
  ∃ g, groupby_max chexpert_targets
         (pd_concat [image_a1; image_b1] [image_a2; image_b2]) = Ok g ∧
    ∀ k vals, (k, vals) ∈ g ↔
      (∃ v1 v2,
         (k, v1) ∈ [(("patient64541", "study1"), [Num 0; Num 0; Num 0; Num 0; Num 0]);
                    (("patient64542", "study1"), [Num 0; Num 1; Num 1; Num 0; Num 1])] ∧
         (k, v2) ∈ [(("patient64541", "study1"), [Num 1; Num 0; NaN; Num 1; Num 0]);
                    (("patient64542", "study1"), [Num 0; Num 0; Num 0; NaN; Num 1])] ∧
         vals = zip_with cell_max v1 v2) ∨
      ((k, vals) ∈ [(("patient64541", "study1"), [Num 0; Num 0; Num 0; Num 0; Num 0]);
                    (("patient64542", "study1"), [Num 0; Num 1; Num 1; Num 0; Num 1])] ∧
       k ∉ map fst [(("patient64541", "study1"), [Num 1; Num 0; NaN; Num 1; Num 0]);
                    (("patient64542", "study1"), [Num 0; Num 0; Num 0; NaN; Num 1])]) ∨
      ((k, vals) ∈ [(("patient64541", "study1"), [Num 1; Num 0; NaN; Num 1; Num 0]);
                    (("patient64542", "study1"), [Num 0; Num 0; Num 0; NaN; Num 1])] ∧
       k ∉ map fst [(("patient64541", "study1"), [Num 0; Num 0; Num 0; Num 0; Num 0]);
                    (("patient64542", "study1"), [Num 0; Num 1; Num 1; Num 0; Num 1])]).
Proof.
  apply (groupby_max_concat chexpert_targets [image_a1; image_b1] [image_a2; image_b2]).
  - vm_compute. reflexivity.
  - vm_compute. reflexivity.
Defined.

Lemma groupby_max_positive_witness :
  [Num 1; Num 0; Num 0; Num 1; Num 0] !! 0 = Some (Num 1) ↔
  ∃ r, r ∈ valid_df ∧ study_key r = Some ("patient64541", "study1") ∧
       findings r !! "Atelectasis" = Some (Num 1).
Proof.
  apply (groupby_max_positive chexpert_targets valid_df valid_grouped).
  - vm_compute. reflexivity.
  - by left.
  - reflexivity.
  - intros r x Hr Hx. apply list_elem_of_In in Hr. simpl in Hr.
    destruct Hr as [<-|[<-|[<-|[<-|[]]]]]; vm_compute in Hx;
      injection Hx as <-; vm_compute; discriminate.
Defined.

Lemma assign_preds_shape_witness :
  ∃ pdf, assign_preds chexpert_targets constant_preds [] = Ok pdf.
Proof.
  apply (proj2 (proj1 (assign_preds_shape chexpert_targets constant_preds []))).
  right. split; [by left|]. apply (bool_decide_unpack _). vm_compute. exact I.
Defined.

Example assign_preds_empty_frame :
  assign_preds ["Atelectasis"] [[half]; [fifth]] [] =
  Ok [set_finding "Atelectasis" blank_row half;
      set_finding "Atelectasis" blank_row fifth].
Proof. reflexivity. Qed.

Lemma assign_preds_lookup_witness :
  (valid_df ≠ [] → length valid_df_constant = length valid_df) ∧
  (chexpert_targets ≠ [] → length valid_df_constant = length constant_preds) ∧
  (∀ j r, valid_df !! j = Some r →
    ∃ r', valid_df_constant !! j = Some r' ∧
      Path r' = Path r ∧ train_valid r' = train_valid r ∧
      patient r' = patient r ∧ study r' = study r ∧
      (∀ f, f ∉ chexpert_targets → findings r' !! f = findings r !! f) ∧
      (∀ i c, chexpert_targets !! i = Some c →
         ∃ s v, constant_preds !! j = Some s ∧ s !! i = Some v ∧
                findings r' !! c = Some (Num v))) ∧
  (valid_df = [] → ∀ j r', valid_df_constant !! j = Some r' →
      Path r' = None ∧ train_valid r' = None ∧
      patient r' = None ∧ study r' = None ∧
      (∀ i c, chexpert_targets !! i = Some c →
         ∃ s v, constant_preds !! j = Some s ∧ s !! i = Some v ∧
                findings r' !! c = Some (Num v))).
Proof.
  apply (assign_preds_lookup chexpert_targets constant_preds valid_df valid_df_constant).
  - apply (bool_decide_unpack _). vm_compute. exact I.
  - vm_compute. reflexivity.
Defined.

Lemma get_preds_per_study_overwrites_witness :
  assign_preds chexpert_targets constant_preds valid_df_constant = Ok valid_df_constant ∧
  ∃ g, groupby_max chexpert_targets valid_df_constant = Ok g ∧
    reset_index chexpert_targets constant_grouped = reset_index chexpert_targets g ∧
    validation_eval chexpert_targets valid_df_constant constant_preds =
      (let* auc_scores :=
         auc_scores_from chexpert_targets (values g) (values g)
           (seq 0 (length chexpert_targets)) ∅ in
       let* lines := report_lines auc_scores chexpert_targets in
       Ok {| auc_scores := auc_scores; avg_auc := dict_average auc_scores;
             avg_chexpert_auc := dict_average chexpert_auc_scores;
             lines := lines |}).
Proof.
  apply (get_preds_per_study_overwrites chexpert_targets valid_df valid_df_constant
           (reset_index chexpert_targets constant_grouped) constant_preds).
  - apply (bool_decide_unpack _). vm_compute. exact I.
  - vm_compute. reflexivity.
Defined.

Lemma validation_eval_Ok_classes_witness :
  take (length chexpert_targets) chexpert_targets ≡ₚ chexpert_targets ∧
  ∀ k, is_Some (auc_scores valid_report !! k) ↔ k ∈ chexpert_targets.
Proof.
  apply (validation_eval_Ok_classes chexpert_targets valid_df constant_preds valid_report).
  apply (bool_decide_unpack _). vm_compute. exact I.
Defined.

Lemma validation_eval_Permutation_witness :
  validation_eval chexpert_targets valid_df constant_preds =
  validation_eval chexpert_targets valid_df_shuffled constant_preds.
Proof.
  apply (validation_eval_Permutation chexpert_targets valid_df valid_df_shuffled
           constant_preds constant_preds).
  - reflexivity.
  - reflexivity.
  - change (zip valid_df_shuffled constant_preds)
      with (rev (zip valid_df constant_preds)).
    apply Permutation_rev.
Defined.

Lemma validation_eval_input_errors_witness :
  validation_eval chexpert_targets [] [[half; fifth; half]] = Err IndexError.
Proof.
  apply (proj2 (proj2 (validation_eval_input_errors chexpert_targets []
                         [[half; fifth; half]]))).
  - constructor.
  - apply Exists_cons_hd. simpl. lia.
  - by left.
Defined.

Lemma get_sample_df_by_patient_witness :
  get_sample_df sample_draws (Q2Qc (3 # 10))
    (pd_concat (range_index train_df) (range_index valid_df))
    (range_index (train_df ++ [image_b1])) =
  Ok (pd_concat [(0, train_a1); (2, train_a2)] (range_index valid_df)).
Proof.
  destruct (get_sample_df_by_patient sample_draws (Q2Qc (3 # 10)) train_df valid_df
              [image_b1]) as [Hs _].
  - apply (bool_decide_unpack _). vm_compute. exact I.
  - apply (bool_decide_unpack _). vm_compute. exact I.
  - apply (bool_decide_unpack _). vm_compute. exact I.
  - rewrite Hs. vm_compute. reflexivity.
Defined.

(** A [full_train_df] that lacks a label of the training part of [full_df]
    cannot be aligned. *)
Example get_sample_df_unalignable :
  get_sample_df sample_draws (Q2Qc (3 # 10))
    (pd_concat (range_index train_df) (range_index valid_df))
    (range_index [train_a1; train_b1]) = Err IndexingError.
Proof. vm_compute. reflexivity. Qed.
